(** * Export-documentation coverage analyzer: [scripts/check_docstrings.py]

    A shallow embedding of the Python script and the properties of its
    five stages: file selection, export location, documentation
    classification, aggregation and reporting. *)

From Stdlib Require Import String Ascii DecimalString DecimalPos.
From Stdlib Require Import List Sorted Permutation ZArith NArith Bool Lia SpecFloat.
Import ListNotations.

Local Open Scope Z_scope.

(** ** Python strings

    A Python [str] is a sequence of Unicode code points. *)

Module PyStr.

Definition char := N.
Definition str := list char.

(** A string literal of the script (all of them are ASCII). *)
Definition lit (s : string) : str := map N_of_ascii (list_ascii_of_string s).

(** [str.isspace] on one code point: what [str.strip()] removes and what
    the regular-expression class [\s] accepts on [str] patterns. *)
Definition isspace (c : char) : bool :=
  (((9 <=? c) && (c <=? 13)) || ((28 <=? c) && (c <=? 32))
   || (c =? 133) || (c =? 160) || (c =? 5760)
   || ((8192 <=? c) && (c <=? 8202))
   || (c =? 8232) || (c =? 8233) || (c =? 8239) || (c =? 8287)
   || (c =? 12288))%N.

Fixpoint lstrip (s : str) : str :=
  match s with
  | c :: s' => if isspace c then lstrip s' else s
  | [] => []
  end.

Definition rstrip (s : str) : str := rev (lstrip (rev s)).

(** [s.strip()] *)
Definition strip (s : str) : str := rstrip (lstrip s).

(** [s.startswith(p)] *)
Fixpoint startswith (s p : str) {struct p} : bool :=
  match p, s with
  | [], _ => true
  | a :: p', b :: s' => (a =? b)%N && startswith s' p'
  | _ :: _, [] => false
  end.

(** [s.endswith(p)] *)
Definition endswith (s p : str) : bool := startswith (rev s) (rev p).

(** Truth value of a string: [not s] holds of the empty string only. *)
Definition truth (s : str) : bool :=
  match s with [] => false | _ :: _ => true end.

(** [s.split('\n')] *)
Fixpoint split_nl (s : str) : list str :=
  match s with
  | [] => [[]]
  | c :: s' =>
      if (c =? 10)%N then [] :: split_nl s'
      else match split_nl s' with
           | l :: ls => (c :: l) :: ls
           | [] => [[c]]
           end
  end.

(** [str(n)] for an integer, as an f-string renders it. *)
Definition str_of_int (n : Z) : str := lit (NilZero.string_of_int (Z.to_int n)).

(** [lines[j]] for an index inside the list; the loops of the script
    only produce such indices. *)
Definition getitem (lines : list str) (j : Z) : str :=
  nth (Z.to_nat j) lines [].

(** [range(start, stop, -1)] *)
Definition range_down (start stop : Z) : list Z :=
  map (fun k => start - Z.of_nat k) (seq 0 (Z.to_nat (start - stop))).

(** [enumerate(l)], counting from [i] *)
Fixpoint enumerate_from {A} (i : Z) (l : list A) : list (Z * A) :=
  match l with
  | [] => []
  | x :: l' => (i, x) :: enumerate_from (i + 1) l'
  end.

Definition enumerate {A} (l : list A) : list (Z * A) := enumerate_from 0 l.

End PyStr.
Import PyStr.

(** ** Documentation classifier (lines 29-43) *)

(** The body of [for j in range(i - 1, max(-1, i - 10), -1)], run over
    the remaining indices; the result is the final [has_docstring]. *)
Fixpoint lookback (lines : list str) (js : list Z) : bool :=
  match js with
  | [] => false
  | j :: js' =>
      let prev_line := strip (getitem lines j) in
      if negb (truth prev_line) then lookback lines js'
      else if endswith prev_line (lit "*/") || startswith prev_line (lit "///")
      then true
      else if startswith prev_line (lit "@") then lookback lines js'
      else false
  end.

(** The indices the loop runs over for an export at line [i]. *)
Definition lookback_indices (i : Z) : list Z :=
  range_down (i - 1) (Z.max (-1) (i - 10)).

Definition has_docstring (lines : list str) (i : Z) : bool :=
  lookback lines (lookback_indices i).

(** Vocabulary of the classifier, on a line already trimmed. *)
Definition is_blank (l : str) : bool := negb (truth l).
Definition is_doc_comment (l : str) : bool :=
  endswith l (lit "*/") || startswith l (lit "///").
Definition is_decorator (l : str) : bool := startswith l (lit "@").

(** The lines above line [i], nearest first, at most nine of them. *)
Definition preceding9 (lines : list str) (i : nat) : list str :=
  rev (skipn (i - 9) (firstn i lines)).

(** ** Regular expressions, as [re] runs them

    [re] is a backtracking matcher: alternatives are tried left to right,
    quantifiers are greedy, and the first success wins.  [run] lists all
    the ways a pattern matches at the start of a string, in that order,
    so that the head of the list is the match [re] reports. *)

Module Re.

Inductive regex : Type :=
| Lit (w : str)                 (* literal text *)
| Plus (p : char -> bool)       (* [c+] for a character class [c] *)
| Seq (r1 r2 : regex)           (* [r1 r2] *)
| Alt (r1 r2 : regex)           (* [r1|r2] *)
| Opt (r : regex)               (* [(?:r)?] *)
| Group (r : regex).            (* [(r)], capture group 1 *)

Definition capture := option str.

(** Of two captures of the same group the later one is kept. *)
Definition later (g1 g2 : capture) : capture :=
  match g2 with Some _ => g2 | None => g1 end.

(** What is left of [s] after [c+], the longest run first. *)
Fixpoint plus_run (p : char -> bool) (s : str) : list str :=
  match s with
  | c :: s' => if p c then plus_run p s' ++ [s'] else []
  | [] => []
  end.

Fixpoint run (r : regex) (s : str) : list (capture * str) :=
  match r with
  | Lit w => if startswith s w then [(None, skipn (length w) s)] else []
  | Plus p => map (fun s' => (None, s')) (plus_run p s)
  | Seq r1 r2 =>
      flat_map (fun '(g1, s1) =>
                  map (fun '(g2, s2) => (later g1 g2, s2)) (run r2 s1))
               (run r1 s)
  | Alt r1 r2 => run r1 s ++ run r2 s
  | Opt r1 => run r1 s ++ [(None, s)]
  | Group r1 =>
      map (fun '(_, s') => (Some (firstn (length s - length s') s), s'))
          (run r1 s)
  end.

(** A match object: where the match starts and what group 1 holds. *)
Record match_object : Type :=
  { m_start : nat; m_group1 : capture }.

(** [pattern.search(s)], trying the start positions from [pos] on. *)
Fixpoint search_from (r : regex) (pos : nat) (s : str) : option match_object :=
  match run r s with
  | (g, _) :: _ => Some {| m_start := pos; m_group1 := g |}
  | [] =>
      match s with
      | [] => None
      | _ :: s' => search_from r (S pos) s'
      end
  end.

Definition search (r : regex) (s : str) : option match_object :=
  search_from r 0 s.

(** [m.group(1)]; a group that did not take part gives [None], which an
    f-string renders as the text [None]. *)
Definition group1 (m : match_object) : str :=
  match m_group1 m with Some w => w | None => lit "None" end.

End Re.
Import Re.

(** ** Export locator (line 12) *)

(** The class [[a-zA-Z0-9_]] *)
Definition word_char (c : char) : bool :=
  (((97 <=? c) && (c <=? 122)) || ((65 <=? c) && (c <=? 90))
   || ((48 <=? c) && (c <=? 57)) || (c =? 95))%N.

(** [(?:function|class|const|type|interface|enum)] *)
Definition declaration_kind : regex :=
  Alt (Lit (lit "function"))
   (Alt (Lit (lit "class"))
    (Alt (Lit (lit "const"))
     (Alt (Lit (lit "type"))
      (Alt (Lit (lit "interface")) (Lit (lit "enum")))))).

(** [export\s+(?:async\s+)?(?:function|...|enum)\s+([a-zA-Z0-9_]+)] *)
Definition export_pattern : regex :=
  Seq (Lit (lit "export"))
   (Seq (Plus isspace)
    (Seq (Opt (Seq (Lit (lit "async")) (Plus isspace)))
     (Seq declaration_kind
      (Seq (Plus isspace) (Group (Plus word_char)))))).

(** ** Exceptions

    [open] and [f.read()] either give the text of the file or raise;
    nothing in the script catches an exception. *)

Inductive exn : Type :=
| OSError                (* the file cannot be opened or read *)
| UnicodeDecodeError.    (* its bytes are not valid UTF-8 *)

Inductive result (A : Type) : Type :=
| Return (a : A)
| Raise (e : exn).
Arguments Return {A} a.
Arguments Raise {A} e.

Definition bind {A B} (c : result A) (k : A -> result B) : result B :=
  match c with
  | Return a => k a
  | Raise e => Raise e
  end.

Notation "x <- c ;; k" := (bind c (fun x => k))
  (at level 61, c at next level, right associativity).

(** A [for] loop whose body may raise. *)
Fixpoint for_each {A S} (body : S -> A -> result S) (l : list A) (st : S)
  : result S :=
  match l with
  | [] => Return st
  | x :: l' => st' <- body st x ;; for_each body l' st'
  end.

(** ** Binary64 arithmetic of the coverage line (lines 55 and 58)

    A finite non-negative [float] is [mant * 2 ^ expo].  Only the
    operations the script performs are modelled: the true division of
    two integers, the product with the integer [100], and the rendering
    [:.2f].  All three round to nearest, ties to even. *)

Module Float64.

Record float : Type := { mant : Z; expo : Z }.

(** The non-negative rational [n / d] rounded to an integer, ties to
    even. *)
Definition round_half_even (n d : Z) : Z :=
  let q := n / d in
  let r := n mod d in
  if 2 * r <? d then q
  else if d <? 2 * r then q + 1
  else if Z.even q then q else q + 1.

(** [n / d] divided by [2 ^ e], as a fraction. *)
Definition scale (n d e : Z) : Z * Z :=
  if 0 <=? e then (n, d * 2 ^ e) else (n * 2 ^ (- e), d).

(** The binary64 number nearest to [n / d], for [0 <= n] and [0 < d]:
    a significand of 53 bits, exponents no less than [-1074]
    (subnormal numbers below).  A significand that rounds up to
    [2 ^ 53] stands for the next power of two.  Overflow does not
    arise: the script only forms values up to [100]. *)
Definition nearest (n d : Z) : float :=
  let c := Z.log2 n - Z.log2 d in
  let '(n0, d0) := scale n d c in
  let e := Z.max (-1074) (if d0 <=? n0 then c - 52 else c - 53) in
  let '(n1, d1) := scale n d e in
  {| mant := round_half_even n1 d1; expo := e |}.

(** [a / b] on integers *)
Definition int_truediv (a b : Z) : float := nearest a b.

(** [x * k] for a float [x] and an integer [k] that is itself a float *)
Definition mul_int (x : float) (k : Z) : float :=
  let '(n, d) := scale (mant x * k) 1 (- expo x) in nearest n d.

(** The value of [x] in hundredths, rounded: the digits of [f"{x:.2f}"]. *)
Definition hundredths (x : float) : Z :=
  let '(n, d) := scale (mant x * 100) 1 (- expo x) in round_half_even n d.

(** A count of hundredths written with two decimals. *)
Definition render_hundredths (h : Z) : str :=
  str_of_int (h / 100) ++ lit "." ++
  str_of_int (h mod 100 / 10) ++ str_of_int (h mod 10).

(** [f"{x:.2f}"] *)
Definition format_2f (x : float) : str := render_hundredths (hundredths x).

(** The same number in the binary64 format of the standard library's
    specification of IEEE 754 arithmetic. *)
Definition to_spec_float (x : float) : spec_float :=
  if mant x =? 0 then S754_zero false
  else if mant x =? 2 ^ 53
       then S754_finite false (Z.to_pos (2 ^ 52)) (expo x + 1)
       else S754_finite false (Z.to_pos (mant x)) (expo x).

(** An integer as a binary64 number of that specification. *)
Definition spec_of_int (n : Z) : spec_float :=
  binary_normalize 53 1024 n 0 false.

End Float64.

(** ** The file system the script sees *)

Record filesystem : Type :=
  { (** the [(root, files)] parts of what [os.walk(directory)] yields *)
    os_walk : str -> list (str * list str);
    (** [open(filepath, 'r', encoding='utf-8')] followed by [f.read()] *)
    read_text : str -> result str }.

(** [os.path.join(a, p)] on POSIX *)
Definition path_join (a p : str) : str :=
  if startswith p (lit "/") then p
  else if negb (truth a) || endswith a (lit "/") then a ++ p
  else a ++ lit "/" ++ p.

(** ** Aggregator (lines 5-7 and 45-49) *)

Record counters : Type :=
  { total_items : Z;
    items_with_docstrings : Z;
    missing_docstrings : list str }.

Definition no_items : counters :=
  {| total_items := 0; items_with_docstrings := 0; missing_docstrings := [] |}.

(** The body of [for i, line in enumerate(lines)] (lines 26-49). *)
Definition visit_line (filepath : str) (lines : list str)
    (st : counters) (il : Z * str) : counters :=
  let '(i, line) := il in
  match search export_pattern line with
  | Some m =>
      let item_name := group1 m in
      if has_docstring lines i then
        {| total_items := total_items st + 1;
           items_with_docstrings := items_with_docstrings st + 1;
           missing_docstrings := missing_docstrings st |}
      else
        {| total_items := total_items st + 1;
           items_with_docstrings := items_with_docstrings st;
           missing_docstrings :=
             missing_docstrings st ++
             [filepath ++ lit ":" ++ str_of_int (i + 1) ++ lit " - " ++ item_name] |}
  | None => st
  end.

(** Lines 24-49 for one file that has been read. *)
Definition visit_content (filepath content : str) (st : counters) : counters :=
  let lines := split_nl content in
  fold_left (visit_line filepath lines) (enumerate lines) st.

(** The body of [for file in files] (lines 19-49). *)
Definition visit_file (fs : filesystem) (root : str)
    (st : counters) (file : str) : result counters :=
  if endswith file (lit ".ts") || endswith file (lit ".tsx") then
    let filepath := path_join root file in
    content <- read_text fs filepath ;;
    Return (visit_content filepath content st)
  else Return st.

(** The body of [for root, _, files in os.walk(directory)]. *)
Definition visit_dir (fs : filesystem) (st : counters)
    (entry : str * list str) : result counters :=
  let '(root, files) := entry in for_each (visit_file fs root) files st.

(** Lines 5-49: the counters when the loops end. *)
Definition scan (fs : filesystem) (directory : str) : result counters :=
  for_each (visit_dir fs) (os_walk fs directory) no_items.

(** ** Reporter (lines 51-63): the arguments of the [print] calls

    Standard output is taken to accept every character printed. *)

Definition report (st : counters) : list str :=
  if total_items st =? 0 then [lit "No exported items found."]
  else
    let coverage :=
      Float64.mul_int
        (Float64.int_truediv (items_with_docstrings st) (total_items st)) 100 in
    [ lit "Total exported items: " ++ str_of_int (total_items st);
      lit "Items with docstrings: " ++ str_of_int (items_with_docstrings st);
      lit "Docstring coverage: " ++ Float64.format_2f coverage ++ lit "%" ]
    ++ match missing_docstrings st with
       | [] => []
       | _ :: _ =>
           (10%N :: lit "Missing docstrings:") :: missing_docstrings st
       end.

(** [check_docstrings(directory)]: what it prints, or the exception it
    raises. *)
Definition check_docstrings (fs : filesystem) (directory : str)
  : result (list str) :=
  st <- scan fs directory ;; Return (report st).

(** ** Vocabulary of the properties *)

(** The classifier as a function of the lines it is given, nearest
    first. *)
Fixpoint classify (ls : list str) : bool :=
  match ls with
  | [] => false
  | l :: ls' =>
      let p := strip l in
      if is_blank p then classify ls'
      else if is_doc_comment p then true
      else if is_decorator p then classify ls'
      else false
  end.

(** A line the scan passes over: blank, or a decorator line that is not
    itself the end of a comment. *)
Definition scanned_past (l : str) : bool :=
  is_blank l || (is_decorator l && negb (is_doc_comment l)).

(** The first of the trimmed lines [ls] that is neither blank nor a
    decorator line. *)
Definition first_significant (ls : list str) : option str :=
  find (fun l => negb (is_blank l) && negb (is_decorator l)) ls.

(** The verdict read off the nine preceding lines by the rule
    "the first line that is neither blank nor a decorator line is a
    documentation comment". *)
Definition documented_by_first_significant (lines : list str) (i : nat) : bool :=
  match first_significant (map strip (preceding9 lines i)) with
  | Some l => is_doc_comment l
  | None => false
  end.

(** The same rule, passing over [scanned_past] lines only. *)
Definition documented_by_first_stop (lines : list str) (i : nat) : bool :=
  match find (fun l => negb (scanned_past l)) (map strip (preceding9 lines i)) with
  | Some l => is_doc_comment l
  | None => false
  end.

(** The words a regular expression matches, with what group 1 then
    holds. *)
Inductive accepts : regex -> str -> capture -> Prop :=
| accepts_lit (w : str) :
    accepts (Lit w) w None
| accepts_plus (p : char -> bool) (w : str) :
    w <> [] -> forallb p w = true -> accepts (Plus p) w None
| accepts_seq (r1 r2 : regex) (w1 w2 : str) (g1 g2 : capture) :
    accepts r1 w1 g1 -> accepts r2 w2 g2 ->
    accepts (Seq r1 r2) (w1 ++ w2) (later g1 g2)
| accepts_alt_left (r1 r2 : regex) (w : str) (g : capture) :
    accepts r1 w g -> accepts (Alt r1 r2) w g
| accepts_alt_right (r1 r2 : regex) (w : str) (g : capture) :
    accepts r2 w g -> accepts (Alt r1 r2) w g
| accepts_opt_some (r : regex) (w : str) (g : capture) :
    accepts r w g -> accepts (Opt r) w g
| accepts_opt_none (r : regex) :
    accepts (Opt r) [] None
| accepts_group (r : regex) (w : str) (g : capture) :
    accepts r w g -> accepts (Group r) w (Some w).

(** One or more white-space characters. *)
Definition spaces (w : str) : Prop := w <> [] /\ forallb isspace w = true.

(** The six declaration-kind keywords. *)
Definition declaration_keywords : list str :=
  [lit "function"; lit "class"; lit "const"; lit "type"; lit "interface";
   lit "enum"].

(** [w] is an export declaration header that names [name]: the export
    keyword, white space, optionally the async modifier and white space,
    a declaration-kind keyword, white space, and the name, made of
    letters, digits and underscores. *)
Definition export_declaration (w name : str) : Prop :=
  exists ws1 modifier kw ws2,
    w = lit "export" ++ ws1 ++ modifier ++ kw ++ ws2 ++ name /\
    spaces ws1 /\
    (modifier = [] \/ exists ws, spaces ws /\ modifier = lit "async" ++ ws) /\
    In kw declaration_keywords /\
    spaces ws2 /\
    name <> [] /\ forallb word_char name = true.

(** No name character follows. *)
Definition name_ends (rest : str) : Prop :=
  match rest with
  | c :: _ => word_char c = false
  | [] => True
  end.

(** Patterns whose first match leaves no name character behind. *)
Definition takes_whole_name (r : regex) : Prop :=
  forall s g s' t, run r s = (g, s') :: t -> name_ends s'.

(** An export site with its verdict: the file, the line counted from
    one, the name, and whether it is documented. *)
Record export_site : Type :=
  { site_file : str;
    site_line : Z;
    site_name : str;
    site_documented : bool }.

(** The site a line of a file gives, if any. *)
Definition site_of_line (filepath : str) (lines : list str) (il : Z * str)
  : list export_site :=
  match search export_pattern (snd il) with
  | Some m =>
      [{| site_file := filepath;
          site_line := fst il + 1;
          site_name := group1 m;
          site_documented := has_docstring lines (fst il) |}]
  | None => []
  end.

(** The sites of one file, from its first line to its last. *)
Definition sites_of_file (filepath content : str) : list export_site :=
  let lines := split_nl content in
  flat_map (site_of_line filepath lines) (enumerate lines).

(** The files the selector keeps. *)
Definition selected (file : str) : bool :=
  endswith file (lit ".ts") || endswith file (lit ".tsx").

(** Their paths, in the order of enumeration. *)
Definition selected_paths (fs : filesystem) (directory : str) : list str :=
  flat_map (fun entry => map (path_join (fst entry)) (filter selected (snd entry)))
           (os_walk fs directory).

(** The sites the files at [paths] contribute, in that order. *)
Definition sites_of_paths (fs : filesystem) (paths : list str) : list export_site :=
  flat_map (fun filepath =>
              match read_text fs filepath with
              | Return content => sites_of_file filepath content
              | Raise _ => []
              end) paths.

(** All export sites in discovery order: file by file, and line by line
    within a file. *)
Definition discovered (fs : filesystem) (directory : str) : list export_site :=
  sites_of_paths fs (selected_paths fs directory).

Definition undocumented (sites : list export_site) : list export_site :=
  filter (fun s => negb (site_documented s)) sites.

(** How the aggregator stores an undocumented site. *)
Definition stored_location (s : export_site) : str :=
  site_file s ++ lit ":" ++ str_of_int (site_line s) ++ lit " - " ++ site_name s.

(** The counters after the sites [sites] have been added to [st]. *)
Definition add_sites (st : counters) (sites : list export_site) : counters :=
  {| total_items := total_items st + Z.of_nat (length sites);
     items_with_docstrings :=
       items_with_docstrings st
       + Z.of_nat (length (filter site_documented sites));
     missing_docstrings :=
       missing_docstrings st ++ map stored_location (undocumented sites) |}.

(** The exception of the first file at [paths] that cannot be read. *)
Fixpoint first_error (fs : filesystem) (paths : list str) : option exn :=
  match paths with
  | [] => None
  | filepath :: paths' =>
      match read_text fs filepath with
      | Raise e => Some e
      | Return _ => first_error fs paths'
      end
  end.

(** The location of a site with an em dash between line and name. *)
Definition em_dash : char := 8212%N.
Definition em_dash_location (s : export_site) : str :=
  site_file s ++ lit ":" ++ str_of_int (site_line s)
  ++ lit " " ++ [em_dash] ++ lit " " ++ site_name s.

(** ** Sample file systems *)

(** A text file given by its lines. *)
Fixpoint text (ls : list string) : str :=
  match ls with
  | [] => []
  | [l] => lit l
  | l :: ls' => lit l ++ 10%N :: text ls'
  end.

(** A tree with one directory [src]: its file names, and what reading
    each path gives. *)
Definition tree (files : list string) (contents : list (string * result str))
  : filesystem :=
  {| os_walk := fun _ => [(lit "src", map lit files)];
     read_text := fun filepath =>
       match find (fun entry => startswith filepath (lit (fst entry))
                                && startswith (lit (fst entry)) filepath)
                  contents with
       | Some entry => snd entry
       | None => Raise OSError
       end |}.

Local Open Scope string_scope.

(** Scenario A: one export without a comment. *)
Definition scenario_a : filesystem :=
  tree ["foo.ts"]
       [("src/foo.ts", Return (text ["export function foo() {}"]))].

(** Scenario B: the same export right below a block comment. *)
Definition scenario_b : filesystem :=
  tree ["foo.ts"]
       [("src/foo.ts",
         Return (text ["/**"; " * Does foo."; " */";
                       "export function foo() {}"]))].

(** Scenario C: a tree with no file of a selected extension. *)
Definition scenario_c : filesystem :=
  tree ["README.md"; "notes.txt"]
       [("src/README.md", Return (text ["export function hidden() {}"]))].

(** Scenario D: one file fully documented, one not at all. *)
Definition scenario_d : filesystem :=
  tree ["documented.ts"; "notes.md"; "plain.tsx"]
       [("src/documented.ts",
         Return (text ["/** One. */"; "export function one() {}"; "";
                       "/// Two."; "@memo"; "export const two = 2;"]));
        ("src/plain.tsx",
         Return (text ["export class A {}"; "export interface B {}";
                       "const hidden = 0;"; "export enum C { X }"]))].

(** A tree whose second selected file is not valid UTF-8. *)
Definition scenario_unreadable : filesystem :=
  tree ["a.ts"; "b.ts"; "c.ts"]
       [("src/a.ts", Return (text ["export const a = 1;"]));
        ("src/b.ts", Raise UnicodeDecodeError);
        ("src/c.ts", Return (text ["export const c = 3;"]))].

Local Close Scope string_scope.

(** ** Further vocabulary for [check_docstrings.py] *)

(** ['\n'.join(lines)] *)
Fixpoint join_nl (ls : list str) : str :=
  match ls with
  | [] => []
  | [l] => l
  | l :: ls' => l ++ 10%N :: join_nl ls'
  end.

(** A match object moved [k] places to the right. *)
Definition shift_match (k : nat) (m : match_object) : match_object :=
  {| m_start := (k + m_start m)%nat; m_group1 := m_group1 m |}.

(** * The bootstrap printer: [scripts/inject_skills.py] *)

Module InjectSkills.

(** The exceptions [open], [f.read()] and [os.listdir] raise. *)
Inductive io_error : Type :=
| FileNotFoundError
| PermissionError
| IsADirectoryError
| NotADirectoryError
| DecodeError.

Inductive io (A : Type) : Type :=
| Done (a : A)
| Failed (e : io_error).
Arguments Done {A} a.
Arguments Failed {A} e.

Record filesystem : Type :=
  { (** [open(path, "r")] followed by [f.read()] *)
    read_file : str -> io str;
    (** [os.listdir(path)] *)
    listdir : str -> io (list str);
    (** [os.path.isdir(path)] *)
    isdir : str -> bool }.

(** How a run ends: [main] returns, [sys.exit(code)] is called, or an
    exception that no handler catches leaves [main]. *)
Inductive ending : Type :=
| Returned
| Exited (code : Z)
| Uncaught (e : io_error).

(** A run: the arguments of the [print] calls made, and the ending.
    Standard output is taken to accept every character. *)
Record run : Type := { printed : list str; ended : ending }.

(** [a < b] and [a <= b] on strings: code point by code point, a proper
    prefix first. *)
Fixpoint str_leb (a b : str) : bool :=
  match a, b with
  | [], _ => true
  | _ :: _, [] => false
  | x :: a', y :: b' =>
      if (x <? y)%N then true
      else if (y <? x)%N then false
      else str_leb a' b'
  end.

Definition str_le (a b : str) : Prop := str_leb a b = true.

Fixpoint insert_sorted (x : str) (l : list str) : list str :=
  match l with
  | [] => [x]
  | y :: l' => if str_leb x y then x :: l else y :: insert_sorted x l'
  end.

(** [sorted(l)] on a list of strings.  The order on strings is total
    and two strings that compare equal are the same string, so the
    ascending arrangement is unique: insertion gives what the sort of
    the interpreter gives. *)
Fixpoint sorted (l : list str) : list str :=
  match l with
  | [] => []
  | x :: l' => insert_sorted x (sorted l')
  end.

(** ["=" * 60] *)
Definition rule : str := repeat 61%N 60.

(** Lines 5-8. *)
Definition opening : list str :=
  [rule; 128640%N :: lit " SYSTEM BOOTSTRAP: JULES IDENTITY LOADING..."; rule; []].

(** Lines 18-20. *)
Definition skills_heading : list str :=
  [10%N :: rule; 128194%N :: lit " AVAILABLE SKILLS (skills/)"; rule].

(** Lines 32-36. *)
Definition closing : list str :=
  [10%N :: rule;
   9989%N :: lit " BOOTSTRAP COMPLETE";
   128073%N :: lit " YOU ARE NOW UNLOCKED.";
   128073%N :: lit " PRIME DIRECTIVE: Use the skills listed above.";
   rule].

(** The lines of the loop at lines 25-27. *)
Definition skill_lines (fs : filesystem) (skills : list str) : list str :=
  map (fun skill => lit "  - " ++ skill)
      (filter (fun skill => isdir fs (path_join (lit "skills") skill)) skills).

(** [main()] *)
Definition main (fs : filesystem) : run :=
  match read_file fs (lit "docs/SKILL_PROTOCOL.md") with
  | Failed FileNotFoundError =>
      {| printed := opening ++ [lit "ERROR: docs/SKILL_PROTOCOL.md not found!"];
         ended := Exited 1 |}
  | Failed e => {| printed := opening; ended := Uncaught e |}
  | Done protocol =>
      let above := opening ++ [protocol] ++ skills_heading in
      match listdir fs (lit "skills") with
      | Failed FileNotFoundError =>
          {| printed := above ++ [lit "ERROR: skills/ directory not found!"];
             ended := Exited 1 |}
      | Failed e => {| printed := above; ended := Uncaught e |}
      | Done names =>
          let skills := sorted names in
          {| printed := above ++ skill_lines fs skills ++ closing;
             ended := Returned |}
      end
  end.

(** A tree for trying [main]: the protocol text if the file is there,
    the entries of [skills/] if the directory is there, and which of
    the entries are directories. *)
Definition sample (protocol : io str) (entries : io (list str))
    (directories : list str) : filesystem :=
  {| read_file := fun _ => protocol;
     listdir := fun _ => entries;
     isdir := fun path =>
       existsb (fun d => startswith path (lit "skills/" ++ d)
                         && startswith (lit "skills/" ++ d) path)
               directories |}.

End InjectSkills.

(** ** Reading printed numbers back

    An independent reader of decimal numerals, to say what a printed
    line shows without going through the code that printed it. *)

(** The value of a digit character. *)
Definition digit_value (c : char) : option Z :=
  if ((48 <=? c) && (c <=? 57))%N then Some (Z.of_N c - 48) else None.

(** The digits of [s] read from the left, after the value [acc]. *)
Fixpoint read_digits (acc : Z) (s : str) : option Z :=
  match s with
  | [] => Some acc
  | c :: s' =>
      match digit_value c with
      | Some d => read_digits (10 * acc + d) s'
      | None => None
      end
  end.

(** The number a non-empty string of digits denotes. *)
Definition read_decimal (s : str) : option Z :=
  match s with
  | [] => None
  | _ :: _ => read_digits 0 s
  end.

(** The number of hundredths that a text of the form digits, point,
    two digits denotes. *)
Definition read_two_decimals (s : str) : option Z :=
  match rev s with
  | c2 :: c1 :: point :: whole =>
      if (point =? 46)%N then
        match read_decimal (rev whole), digit_value c1, digit_value c2 with
        | Some a, Some d1, Some d2 => Some (100 * a + 10 * d1 + d2)
        | _, _, _ => None
        end
      else None
  | _ => None
  end.


(** Settles a goal about the [k]-th line up, for [k] between one and
    nine, by looking at each [k]. *)
Ltac each_distance k :=
  do 10 (destruct k as [|k]; [first [lia | reflexivity]|]); lia.

(** Settles the cases of a statement about the ending of a run once the
    results of the file-system calls are known. *)
Ltac settle_ending :=
  repeat match goal with
         | |- _ /\ _ => split
         | |- _ <-> _ => split
         | |- forall _, _ => intro
         | H : _ /\ _ |- _ => destruct H
         | H : _ \/ _ |- _ => destruct H
         | H : exists _, _ |- _ => destruct H
         | H : InjectSkills.Exited _ = InjectSkills.Exited _ |- _ =>
             injection H as <-
         | H : InjectSkills.Uncaught _ = InjectSkills.Uncaught _ |- _ =>
             injection H as <-
         | H : InjectSkills.Failed _ = InjectSkills.Failed _ |- _ =>
             injection H as <-
         end;
  try discriminate; try congruence;
  solve [eauto | left; eauto | right; split; eauto].

(** * Properties *)

(** ** The documentation classifier *)

Section Classifier.

Lemma nth_map_inside {A B} (f : A -> B) (l : list A) (k : nat) (d : B) (d' : A) :
  (k < length l)%nat -> nth k (map f l) d = f (nth k l d').
Proof.
  revert k. induction l as [|x l IH]; intros [|k] Hk; simpl in *;
    try lia; [reflexivity | apply IH; lia].
Qed.

Lemma lookback_classify (lines : list str) (js : list Z) :
  lookback lines js = classify (map (getitem lines) js).
Proof.
  induction js as [|j js IH]; simpl; [reflexivity|].
  unfold is_blank, is_doc_comment, is_decorator.
  rewrite IH. reflexivity.
Qed.

Lemma range_down_length (start stop : Z) :
  length (range_down start stop) = Z.to_nat (start - stop).
Proof. unfold range_down. now rewrite length_map, length_seq. Qed.

Lemma range_down_nth (start stop : Z) (k : nat) :
  (k < Z.to_nat (start - stop))%nat ->
  nth k (range_down start stop) 0 = start - Z.of_nat k.
Proof.
  intros Hk. unfold range_down.
  rewrite (nth_map_inside _ _ _ _ 0%nat) by (now rewrite length_seq).
  now rewrite seq_nth.
Qed.

(** The indices of the loop at line 32, for a line [i] of the file. *)
Lemma window_length (i : nat) :
  length (lookback_indices (Z.of_nat i)) = Nat.min i 9.
Proof. unfold lookback_indices. rewrite range_down_length. lia. Qed.

Lemma window_nth (i k : nat) :
  (k < Nat.min i 9)%nat ->
  nth k (lookback_indices (Z.of_nat i)) 0 = Z.of_nat i - 1 - Z.of_nat k.
Proof. intros Hk. unfold lookback_indices. apply range_down_nth. lia. Qed.

Lemma preceding9_length (lines : list str) (i : nat) :
  (i <= length lines)%nat -> length (preceding9 lines i) = Nat.min i 9.
Proof.
  intros Hi. unfold preceding9.
  rewrite length_rev, length_skipn, length_firstn. lia.
Qed.

Lemma preceding9_nth (lines : list str) (i k : nat) :
  (i <= length lines)%nat -> (k < Nat.min i 9)%nat ->
  nth k (preceding9 lines i) [] = nth (i - 1 - k) lines [].
Proof.
  intros Hi Hk. unfold preceding9.
  assert (Hlen : length (skipn (i - 9) (firstn i lines)) = Nat.min i 9)
    by (rewrite length_skipn, length_firstn; lia).
  rewrite rev_nth by lia. rewrite Hlen.
  rewrite nth_skipn, nth_firstn.
  replace (i - 9 + (Nat.min i 9 - S k))%nat with (i - 1 - k)%nat by lia.
  destruct (Nat.ltb_spec (i - 1 - k) i); [reflexivity | lia].
Qed.

(** The loop reads exactly the lines of [preceding9], nearest first. *)
Lemma window_preceding9 (lines : list str) (i : nat) :
  (i <= length lines)%nat ->
  map (getitem lines) (lookback_indices (Z.of_nat i)) = preceding9 lines i.
Proof.
  intros Hi.
  apply (nth_ext _ _ [] []).
  - now rewrite length_map, window_length, preceding9_length.
  - intros k Hk. rewrite length_map, window_length in Hk.
    rewrite (nth_map_inside _ _ _ _ 0) by (now rewrite window_length).
    rewrite window_nth by lia.
    rewrite preceding9_nth by assumption.
    unfold getitem. f_equal. lia.
Qed.

Lemma has_docstring_classify (lines : list str) (i : nat) :
  (i <= length lines)%nat ->
  has_docstring lines (Z.of_nat i) = classify (preceding9 lines i).
Proof.
  intros Hi. unfold has_docstring.
  now rewrite lookback_classify, window_preceding9.
Qed.

Lemma blank_not_doc_comment (l : str) :
  is_blank l = true -> is_doc_comment l = false.
Proof. destruct l; [reflexivity | discriminate]. Qed.

Lemma classify_first_stop (ls : list str) :
  classify ls =
  match find (fun l => negb (scanned_past l)) (map strip ls) with
  | Some l => is_doc_comment l
  | None => false
  end.
Proof.
  induction ls as [|l ls IH]; simpl; [reflexivity|].
  unfold scanned_past.
  destruct (is_blank (strip l)) eqn:Hb; simpl.
  - exact IH.
  - destruct (is_doc_comment (strip l)) eqn:Hd; simpl.
    + now rewrite andb_false_r.
    + rewrite andb_true_r.
      destruct (is_decorator (strip l)); simpl; [exact IH | now rewrite Hd].
Qed.

Lemma classify_all_scanned_past (ls : list str) :
  (forall l, In l ls -> scanned_past (strip l) = true) -> classify ls = false.
Proof.
  induction ls as [|l ls IH]; intros Hall; simpl; [reflexivity|].
  assert (Hl := Hall l (or_introl eq_refl)).
  assert (Hrest : classify ls = false)
    by (apply IH; intros l' Hl'; apply Hall; now right).
  unfold scanned_past in Hl.
  destruct (is_blank (strip l)); [exact Hrest|].
  simpl in Hl. apply andb_true_iff in Hl as [Hdec Hdoc].
  apply negb_true_iff in Hdoc. now rewrite Hdoc, Hdec.
Qed.

(** A chain of decorator lines with a documentation comment right above
    it. *)
Lemma classify_decorators_then_doc (ds : list str) (c : str) (rest : list str) :
  (forall l, In l ds -> is_decorator (strip l) = true) ->
  is_doc_comment (strip c) = true ->
  classify (ds ++ c :: rest) = true.
Proof.
  intros Hds Hc. induction ds as [|l ds IH]; simpl.
  - destruct (is_blank (strip c)) eqn:Hb.
    + apply blank_not_doc_comment in Hb. congruence.
    + now rewrite Hc.
  - assert (Hl := Hds l (or_introl eq_refl)).
    assert (IH' : classify (ds ++ c :: rest) = true)
      by (apply IH; intros l' Hl'; apply Hds; now right).
    destruct (is_blank (strip l)); [exact IH'|].
    destruct (is_doc_comment (strip l)); [reflexivity|].
    now rewrite Hl.
Qed.

Lemma window_bounds (i : nat) (j : Z) :
  In j (lookback_indices (Z.of_nat i)) ->
  0 <= j /\ Z.of_nat i - 9 <= j <= Z.of_nat i - 1.
Proof.
  intros Hj. apply (In_nth _ _ 0) in Hj as (k & Hk & <-).
  rewrite window_length in Hk. rewrite window_nth by assumption. lia.
Qed.

Lemma preceding9_split (lines : list str) (i n : nat) :
  (i <= length lines)%nat -> (n < Nat.min i 9)%nat ->
  exists ds rest,
    preceding9 lines i = ds ++ nth (i - S n) lines [] :: rest /\
    forall l, In l ds -> exists k, (1 <= k <= n)%nat /\ l = nth (i - k) lines [].
Proof.
  intros Hi Hn.
  set (P := preceding9 lines i).
  assert (HP : length P = Nat.min i 9) by (now apply preceding9_length).
  exists (firstn n P), (skipn (S n) P). split.
  - rewrite <- (firstn_skipn n P) at 1. f_equal.
    assert (Hs : skipn n P = nth n P [] :: skipn (S n) P).
    { clear -Hn HP. assert (Hlt : (n < length P)%nat) by lia. clear Hn HP.
      revert n Hlt. induction P as [|x P IH]; intros [|n] Hlt; simpl in *;
        try lia; [reflexivity | apply IH; lia]. }
    rewrite Hs. f_equal. unfold P. rewrite preceding9_nth by assumption.
    f_equal. lia.
  - intros l Hl. apply (In_nth _ _ []) in Hl as (k & Hk & <-).
    rewrite length_firstn in Hk.
    exists (S k). split; [lia|].
    rewrite nth_firstn. destruct (Nat.ltb_spec k n); [|lia].
    unfold P. rewrite preceding9_nth by lia. f_equal. lia.
Qed.

End Classifier.

(** C1 (amended): for an export at line [i] of a file, the verdict is
    documented exactly when, among the at most nine lines right above
    it, the first line that is neither blank after trimming nor a
    decorator line that does not end a comment is a documentation
    comment (it ends with the closing token of a block comment or
    starts with three slashes); every other first stop gives
    undocumented, and so does a window with no stop at all. *)
Theorem has_docstring_first_stop (lines : list str) (i : nat) :
  (i < length lines)%nat ->
  has_docstring lines (Z.of_nat i) = documented_by_first_stop lines i.
Proof.
  intros Hi. unfold documented_by_first_stop.
  rewrite has_docstring_classify by lia.
  apply classify_first_stop.
Qed.

Lemma has_docstring_first_stop_witness :
  let lines := [lit "/** Adds. */"; lit "@memo"; lit "";
                lit "export function add(a, b) {}"] in
  (3 < length lines)%nat /\
  has_docstring lines 3 = documented_by_first_stop lines 3 /\
  has_docstring lines 3 = true.
Proof.
  intros lines. split; [simpl; lia|]. split.
  - apply (has_docstring_first_stop lines 3). simpl; lia.
  - reflexivity.
Defined.

(** C1 as written fails: a line that starts with the decorator marker
    and ends with the block-comment closing token stops the scan with
    the verdict documented, whereas the rule that passes over every
    decorator line reads the line above it and says undocumented. *)
Lemma first_significant_rule_fails :
  let lines := [lit "const registry = {};";
                lit "@Injectable() /* legacy */";
                lit "export class Foo {}"] in
  (exists m, search export_pattern (nth 2 lines []) = Some m) /\
  has_docstring lines 2 = true /\
  documented_by_first_significant lines 2 = false.
Proof.
  intros lines. split; [eexists; reflexivity|]. split; reflexivity.
Qed.

(** C2 (amended): an export right below a chain of one to eight
    decorator lines, with a documentation comment right above the
    chain, is classified documented. *)
Theorem decorator_chain_documented (lines : list str) (i n : nat) :
  (i < length lines)%nat ->
  (1 <= n <= 8)%nat -> (n < i)%nat ->
  (forall k, (1 <= k <= n)%nat ->
             is_decorator (strip (nth (i - k) lines [])) = true) ->
  is_doc_comment (strip (nth (i - S n) lines [])) = true ->
  has_docstring lines (Z.of_nat i) = true.
Proof.
  intros Hi Hn Hni Hdec Hdoc.
  rewrite has_docstring_classify by lia.
  destruct (preceding9_split lines i n) as (ds & rest & -> & Hds); try lia.
  apply classify_decorators_then_doc; [|exact Hdoc].
  intros l Hl. destruct (Hds l Hl) as (k & Hk & ->). now apply Hdec.
Qed.

Lemma decorator_chain_documented_witness :
  let lines := lit "/** A service. */" :: repeat (lit "@Decorator()") 8
               ++ [lit "export class Service {}"] in
  has_docstring lines 9 = true.
Proof.
  intros lines.
  apply (decorator_chain_documented lines 9 8).
  - simpl; lia.
  - lia.
  - lia.
  - intros k Hk. each_distance k.
  - reflexivity.
Defined.

(** C2 as written fails for a chain of nine decorator lines: the
    documentation comment above the chain is the tenth line up and the
    verdict is undocumented. *)
Lemma decorator_chain_of_nine_undocumented :
  let lines := lit "/** A service. */" :: repeat (lit "@Decorator()") 9
               ++ [lit "export class Service {}"] in
  (exists m, search export_pattern (nth 10 lines []) = Some m) /\
  (forall k, (1 <= k <= 9)%nat ->
             is_decorator (strip (nth (10 - k) lines [])) = true) /\
  is_doc_comment (strip (nth 0 lines [])) = true /\
  has_docstring lines 10 = false.
Proof.
  intros lines. split; [eexists; reflexivity|]. split; [|split; reflexivity].
  intros k Hk. each_distance k.
Qed.

(** C3: the backward scan reads at most nine lines, all among the nine
    right above the export line and none above the top of the file; the
    verdict is a function of those lines alone; and when none of them
    stops the scan the verdict is undocumented, whatever lies further
    up, a documentation comment included. *)
Theorem lookback_bound (lines : list str) (i : nat) :
  (i < length lines)%nat ->
  ((length (lookback_indices (Z.of_nat i)) <= 9)%nat /\
   forall j, In j (lookback_indices (Z.of_nat i)) ->
             0 <= j /\ Z.of_nat i - 9 <= j <= Z.of_nat i - 1) /\
  (forall lines', (i < length lines')%nat ->
                  preceding9 lines' i = preceding9 lines i ->
                  has_docstring lines' (Z.of_nat i)
                  = has_docstring lines (Z.of_nat i)) /\
  ((forall l, In l (preceding9 lines i) -> scanned_past (strip l) = true) ->
   has_docstring lines (Z.of_nat i) = false).
Proof.
  intros Hi. split; [split|split].
  - rewrite window_length. lia.
  - intros j Hj. apply window_bounds in Hj. lia.
  - intros lines' Hi' Heq.
    rewrite !has_docstring_classify by lia. now rewrite Heq.
  - intros Hall. rewrite has_docstring_classify by lia.
    now apply classify_all_scanned_past.
Qed.

Lemma lookback_bound_witness :
  let lines := [lit "/** Far away. */"; lit ""; lit ""; lit ""; lit "";
                lit ""; lit ""; lit ""; lit ""; lit "";
                lit "export const far = 1;"] in
  is_doc_comment (strip (nth 0 lines [])) = true /\
  has_docstring lines 10 = false.
Proof.
  intros lines. split; [reflexivity|].
  apply (lookback_bound lines 10); [simpl; lia|].
  intros l Hl. simpl in Hl.
  repeat (destruct Hl as [<- | Hl]; [reflexivity|]). contradiction.
Defined.

(** C10 (amended): the [k]-th line the scan reads is the [k]-th line
    above the export whatever the lines hold, so no line more than nine
    lines up is read; nine consecutive lines right above a declaration
    that are each blank or a decorator line not ending a comment use up
    the window and force the verdict undocumented, whatever sits above
    them. *)
Theorem window_exhausted (lines : list str) (i : nat) :
  (9 <= i < length lines)%nat ->
  (forall k, (1 <= k <= 9)%nat ->
             scanned_past (strip (nth (i - k) lines [])) = true) ->
  lookback_indices (Z.of_nat i)
  = map (fun k => Z.of_nat i - Z.of_nat k) (seq 1 9) /\
  has_docstring lines (Z.of_nat i) = false.
Proof.
  intros Hi Hall. split.
  - apply (nth_ext _ _ 0 0).
    + rewrite window_length, length_map, length_seq. lia.
    + intros k Hk. rewrite window_length in Hk.
      rewrite window_nth by lia.
      rewrite (nth_map_inside _ _ _ _ 0%nat) by (rewrite length_seq; lia).
      rewrite seq_nth by lia. lia.
  - rewrite has_docstring_classify by lia.
    apply classify_all_scanned_past.
    intros l Hl. apply (In_nth _ _ []) in Hl as (k & Hk & <-).
    rewrite preceding9_length in Hk by lia.
    rewrite preceding9_nth by lia.
    replace (i - 1 - k)%nat with (i - S k)%nat by lia.
    apply Hall. lia.
Qed.

Lemma window_exhausted_witness :
  let lines := lit "/** A service. */"
               :: [lit "@A"; lit ""; lit "@B()"; lit "  "; lit "@C"; lit "";
                   lit "@D"; lit "@E"; lit ""]
               ++ [lit "export class Service {}"] in
  is_doc_comment (strip (nth 0 lines [])) = true /\
  has_docstring lines 10 = false.
Proof.
  intros lines. split; [reflexivity|].
  apply (window_exhausted lines 10); [simpl; lia|].
  intros k Hk. each_distance k.
Defined.

(** C10 as written fails: nine decorator lines right above a
    declaration do not force the verdict undocumented when the nearest
    of them ends with the block-comment closing token. *)
Lemma nine_decorators_yet_documented :
  let lines := lit "/** A service. */"
               :: repeat (lit "@Injectable() /* legacy */") 9
               ++ [lit "export class Service {}"] in
  (exists m, search export_pattern (nth 10 lines []) = Some m) /\
  (forall k, (1 <= k <= 9)%nat ->
             (is_blank (strip (nth (10 - k) lines []))
              || is_decorator (strip (nth (10 - k) lines []))) = true) /\
  has_docstring lines 10 = true.
Proof.
  intros lines. split; [eexists; reflexivity|]. split; [|reflexivity].
  intros k Hk. each_distance k.
Qed.

(** ** The regular-expression matcher *)

Section Matcher.

Lemma startswith_app (w s : str) : startswith (w ++ s) w = true.
Proof.
  induction w as [|a w IH]; simpl; [reflexivity|].
  now rewrite N.eqb_refl.
Qed.

Lemma startswith_inv (s w : str) :
  startswith s w = true -> s = w ++ skipn (length w) s.
Proof.
  revert s. induction w as [|a w IH]; intros s H; simpl in *; [reflexivity|].
  destruct s as [|b s]; [discriminate|].
  apply andb_true_iff in H as [Hab Hs].
  apply N.eqb_eq in Hab. subst b. simpl. f_equal. now apply IH.
Qed.

Lemma skipn_app_exact {A} (w s : list A) : skipn (length w) (w ++ s) = s.
Proof. induction w; simpl; auto. Qed.

Lemma firstn_app_exact {A} (w s : list A) :
  firstn (length (w ++ s) - length s) (w ++ s) = w.
Proof.
  rewrite length_app.
  replace (length w + length s - length s)%nat with (length w) by lia.
  induction w; simpl; [now destruct s | now f_equal].
Qed.

Lemma plus_run_sound (p : char -> bool) (s s' : str) :
  In s' (plus_run p s) ->
  exists w, w <> [] /\ forallb p w = true /\ s = w ++ s'.
Proof.
  revert s'. induction s as [|c s IH]; intros s' H; simpl in H; [contradiction|].
  destruct (p c) eqn:Hc; [|contradiction].
  apply in_app_or in H as [H | [<- | []]].
  - destruct (IH _ H) as (w & _ & Hw & ->).
    exists (c :: w). repeat split; [discriminate | simpl; now rewrite Hc].
  - exists [c]. repeat split; [discriminate | simpl; now rewrite Hc].
Qed.

Lemma plus_run_complete (p : char -> bool) (w s' : str) :
  w <> [] -> forallb p w = true -> In s' (plus_run p (w ++ s')).
Proof.
  induction w as [|c w IH]; intros Hne Hw; [congruence|].
  simpl in *. apply andb_true_iff in Hw as [Hc Hw]. rewrite Hc.
  apply in_or_app. destruct w as [|c' w].
  - right. now left.
  - left. apply IH; [discriminate | exact Hw].
Qed.

(** The longest run comes first: nothing of the class follows it. *)
Lemma plus_run_head (p : char -> bool) (s s' : str) (l : list str) :
  plus_run p s = s' :: l ->
  match s' with c :: _ => p c = false | [] => True end.
Proof.
  revert s' l. induction s as [|c s IH]; intros s' l H; simpl in H;
    [discriminate|].
  destruct (p c) eqn:Hc; [|discriminate].
  destruct (plus_run p s) as [|s1 l1] eqn:Hrun.
  - simpl in H. injection H as <- _.
    destruct s as [|c' s]; [exact I|].
    simpl in Hrun. destruct (p c'); [|reflexivity].
    now destruct (plus_run p s).
  - simpl in H. injection H as <- _. now apply (IH s1 l1).
Qed.

Lemma run_sound (r : regex) (s s' : str) (g : capture) :
  In (g, s') (run r s) -> exists w, s = w ++ s' /\ accepts r w g.
Proof.
  revert s s' g. induction r as [w|p|r1 IH1 r2 IH2|r1 IH1 r2 IH2|r IH|r IH];
    intros s s' g H; simpl in H.
  - destruct (startswith s w) eqn:Hs; [|contradiction].
    destruct H as [[= <- <-] | []].
    exists w. split; [now apply startswith_inv | constructor].
  - apply in_map_iff in H as (s1 & [= <- <-] & H).
    apply plus_run_sound in H as (w & Hne & Hw & ->).
    exists w. split; [reflexivity | now constructor].
  - apply in_flat_map in H as ([g1 s1] & H1 & H).
    apply in_map_iff in H as ([g2 s2] & [= <- <-] & H2).
    apply IH1 in H1 as (w1 & -> & A1). apply IH2 in H2 as (w2 & -> & A2).
    exists (w1 ++ w2). split; [now rewrite app_assoc | now constructor].
  - apply in_app_or in H as [H | H].
    + apply IH1 in H as (w & -> & A). exists w. split; [reflexivity|].
      now apply accepts_alt_left.
    + apply IH2 in H as (w & -> & A). exists w. split; [reflexivity|].
      now apply accepts_alt_right.
  - apply in_app_or in H as [H | [[= <- <-] | []]].
    + apply IH in H as (w & -> & A). exists w. split; [reflexivity|].
      now apply accepts_opt_some.
    + exists []. split; [reflexivity | apply accepts_opt_none].
  - apply in_map_iff in H as ([g1 s1] & [= <- <-] & H).
    apply IH in H as (w & -> & A). exists w. split; [reflexivity|].
    rewrite firstn_app_exact. now apply accepts_group with (g := g1).
Qed.

Lemma run_complete (r : regex) (w : str) (g : capture) :
  accepts r w g -> forall s', In (g, s') (run r (w ++ s')).
Proof.
  induction 1 as [w|p w Hne Hw|r1 r2 w1 w2 g1 g2 _ IH1 _ IH2
                  |r1 r2 w g _ IH|r1 r2 w g _ IH|r w g _ IH|r|r w g _ IH];
    intros s'; simpl.
  - rewrite startswith_app, skipn_app_exact. now left.
  - apply in_map_iff. exists s'. split; [reflexivity|].
    now apply plus_run_complete.
  - apply in_flat_map. exists (g1, w2 ++ s'). split.
    + rewrite <- app_assoc. apply IH1.
    + apply in_map_iff. exists (g2, s'). split; [reflexivity | apply IH2].
  - apply in_or_app. left. apply IH.
  - apply in_or_app. right. apply IH.
  - apply in_or_app. left. apply IH.
  - apply in_or_app. right. now left.
  - apply in_map_iff. exists (g, s'). split; [|apply IH].
    now rewrite firstn_app_exact.
Qed.

(** What [search_from] finds is the leftmost place where the pattern
    matches, with the first match the matcher finds there. *)
Lemma search_from_some (r : regex) (pos : nat) (s : str) (m : match_object) :
  search_from r pos s = Some m ->
  exists pre rest g' t,
    s = pre ++ rest /\ m_start m = (pos + length pre)%nat /\
    run r rest = (m_group1 m, g') :: t /\
    forall pre' rest', s = pre' ++ rest' -> (length pre' < length pre)%nat ->
                       run r rest' = [].
Proof.
  revert pos. induction s as [|c s IH]; intros pos H; simpl in H.
  - destruct (run r []) as [|[g s'] t] eqn:Hrun; [discriminate|].
    injection H as <-. exists [], [], s', t. simpl.
    repeat split; [lia | now rewrite Hrun | intros; lia].
  - destruct (run r (c :: s)) as [|[g s'] t] eqn:Hrun.
    + apply IH in H as (pre & rest & g' & t & -> & Hst & Hr & Hmin).
      exists (c :: pre), rest, g', t. simpl.
      repeat split; [lia | exact Hr|].
      intros pre' rest' Heq Hlt. destruct pre' as [|c' pre'].
      * simpl in Heq. subst rest'. exact Hrun.
      * injection Heq as <- Heq. apply (Hmin pre' rest' Heq). simpl in Hlt. lia.
    + injection H as <-. exists [], (c :: s), s', t. simpl.
      repeat split; [lia | now rewrite Hrun | intros; lia].
Qed.

Lemma search_from_none (r : regex) (pos : nat) (s : str) :
  search_from r pos s = None ->
  forall pre rest, s = pre ++ rest -> run r rest = [].
Proof.
  revert pos. induction s as [|c s IH]; intros pos H pre rest Heq; simpl in H.
  - destruct (run r []) as [|[g s'] t] eqn:Hrun; [|discriminate].
    symmetry in Heq. apply app_eq_nil in Heq as [_ ->]. exact Hrun.
  - destruct (run r (c :: s)) as [|[g s'] t] eqn:Hrun; [|discriminate].
    destruct pre as [|c' pre].
    + simpl in Heq. now subst rest.
    + injection Heq as <- Heq. now apply (IH (S pos) H pre rest).
Qed.

End Matcher.

(** ** The export locator *)

Section Locator.

Lemma accepts_lit_inv (x w : str) (g : capture) :
  accepts (Lit x) w g -> w = x /\ g = None.
Proof. inversion 1; subst; now split. Qed.

Lemma accepts_plus_inv (p : char -> bool) (w : str) (g : capture) :
  accepts (Plus p) w g -> w <> [] /\ forallb p w = true /\ g = None.
Proof. inversion 1; subst; now repeat split. Qed.

Lemma accepts_seq_inv (r1 r2 : regex) (w : str) (g : capture) :
  accepts (Seq r1 r2) w g ->
  exists w1 w2 g1 g2,
    w = w1 ++ w2 /\ g = later g1 g2 /\ accepts r1 w1 g1 /\ accepts r2 w2 g2.
Proof. inversion 1; subst. now exists w1, w2, g1, g2. Qed.

Lemma accepts_alt_inv (r1 r2 : regex) (w : str) (g : capture) :
  accepts (Alt r1 r2) w g -> accepts r1 w g \/ accepts r2 w g.
Proof. inversion 1; subst; [now left | now right]. Qed.

Lemma accepts_opt_inv (r : regex) (w : str) (g : capture) :
  accepts (Opt r) w g -> accepts r w g \/ (w = [] /\ g = None).
Proof. inversion 1; subst; [now left | now right]. Qed.

Lemma accepts_group_inv (r : regex) (w : str) (g : capture) :
  accepts (Group r) w g -> g = Some w /\ exists g', accepts r w g'.
Proof. inversion 1; subst. split; [reflexivity | now exists g0]. Qed.

Lemma accepts_declaration_kind (w : str) (g : capture) :
  accepts declaration_kind w g <-> In w declaration_keywords /\ g = None.
Proof.
  unfold declaration_kind, declaration_keywords. split.
  - intros H.
    repeat (apply accepts_alt_inv in H as [H | H];
            [apply accepts_lit_inv in H as [-> ->]; simpl; tauto|]).
    apply accepts_lit_inv in H as [-> ->]; simpl; tauto.
  - intros [H ->]. simpl in H.
    destruct H as [<- | [<- | [<- | [<- | [<- | [<- | []]]]]]].
    + apply accepts_alt_left. constructor.
    + apply accepts_alt_right, accepts_alt_left. constructor.
    + do 2 apply accepts_alt_right. apply accepts_alt_left. constructor.
    + do 3 apply accepts_alt_right. apply accepts_alt_left. constructor.
    + do 4 apply accepts_alt_right. apply accepts_alt_left. constructor.
    + do 5 apply accepts_alt_right. constructor.
Qed.

(** The pattern of line 12 matches the export declaration headers, and
    group 1 is the name. *)
Lemma accepts_export_pattern (w : str) (g : capture) :
  accepts export_pattern w g <->
  exists name, g = Some name /\ export_declaration w name.
Proof.
  unfold export_pattern. split.
  - intros H.
    apply accepts_seq_inv in H as (w1 & x1 & g1 & y1 & -> & -> & H1 & H).
    apply accepts_lit_inv in H1 as [-> ->].
    apply accepts_seq_inv in H as (ws1 & x2 & g2 & y2 & -> & -> & H2 & H).
    apply accepts_plus_inv in H2 as (Hne1 & Hws1 & ->).
    apply accepts_seq_inv in H as (md & x3 & g3 & y3 & -> & -> & H3 & H).
    apply accepts_seq_inv in H as (kw & x4 & g4 & y4 & -> & -> & H4 & H).
    apply accepts_declaration_kind in H4 as [Hkw ->].
    apply accepts_seq_inv in H as (ws2 & name & g5 & g6 & -> & -> & H5 & H6).
    apply accepts_plus_inv in H5 as (Hne2 & Hws2 & ->).
    apply accepts_group_inv in H6 as (-> & g' & H6).
    apply accepts_plus_inv in H6 as (Hne & Hname & _).
    exists name. split; [reflexivity|].
    exists ws1, md, kw, ws2. repeat split; try assumption.
    apply accepts_opt_inv in H3 as [H3 | [-> _]]; [|now left].
    apply accepts_seq_inv in H3 as (a & ws & ga & gb & -> & _ & Ha & Hb).
    apply accepts_lit_inv in Ha as [-> _].
    apply accepts_plus_inv in Hb as (Hne3 & Hws3 & _).
    right. exists ws. now repeat split.
  - intros (name & -> & ws1 & md & kw & ws2 & -> & [Hne1 Hws1] & Hmd & Hkw
            & [Hne2 Hws2] & Hne & Hname).
    assert (Hopt : accepts (Opt (Seq (Lit (lit "async")) (Plus isspace)))
                           md None).
    { destruct Hmd as [-> | (ws & [Hne3 Hws3] & ->)].
      - apply accepts_opt_none.
      - apply accepts_opt_some.
        apply (accepts_seq _ _ _ _ None None); now constructor. }
    apply (accepts_seq _ _ _ _ None (Some name)); [constructor|].
    apply (accepts_seq _ _ _ _ None (Some name)); [now constructor|].
    apply (accepts_seq _ _ _ _ None (Some name)); [exact Hopt|].
    apply (accepts_seq _ _ _ _ None (Some name));
      [now apply accepts_declaration_kind|].
    apply (accepts_seq _ _ _ _ None (Some name)); [now constructor|].
    apply accepts_group with (g := None). now constructor.
Qed.

Lemma takes_whole_name_plus : takes_whole_name (Plus word_char).
Proof.
  intros s g s' t H. simpl in H.
  destruct (plus_run word_char s) as [|s1 l] eqn:Hrun; [discriminate|].
  simpl in H. injection H as _ <- _.
  exact (plus_run_head _ _ _ _ Hrun).
Qed.

Lemma takes_whole_name_group (r : regex) :
  takes_whole_name r -> takes_whole_name (Group r).
Proof.
  intros Hr s g s' t H. simpl in H.
  destruct (run r s) as [|[g1 s1] l] eqn:Hrun; [discriminate|].
  simpl in H. injection H as _ <- _.
  exact (Hr _ _ _ _ Hrun).
Qed.

Lemma flat_map_head {A B} (f : A -> list B) (l : list A) (x : B) (t : list B) :
  flat_map f l = x :: t -> exists a t', In a l /\ f a = x :: t'.
Proof.
  induction l as [|a l IH]; simpl; intros H; [discriminate|].
  destruct (f a) as [|y t'] eqn:Hfa.
  - destruct (IH H) as (a' & t' & Hin & Hf). exists a', t'. auto.
  - simpl in H. injection H as -> _. exists a, t'. auto.
Qed.

Lemma takes_whole_name_seq (r1 r2 : regex) :
  takes_whole_name r2 -> takes_whole_name (Seq r1 r2).
Proof.
  intros Hr s g s' t H. simpl in H.
  apply flat_map_head in H as ([g1 s1] & t' & _ & H).
  destruct (run r2 s1) as [|[g2 s2] l] eqn:Hrun; [discriminate|].
  simpl in H. injection H as _ <- _.
  exact (Hr _ _ _ _ Hrun).
Qed.

Lemma takes_whole_name_export : takes_whole_name export_pattern.
Proof.
  unfold export_pattern.
  do 5 apply takes_whole_name_seq.
  apply takes_whole_name_group, takes_whole_name_plus.
Qed.

End Locator.

(** C5: on every line the locator finds at most one export site; it is
    the leftmost place of the line where an export declaration header
    starts (the export keyword, an optional async modifier, one of the
    six declaration-kind keywords, and a name of letters, digits and
    underscores, taken whole), and a line on which no complete header
    with its name stands yields no site. *)
Theorem export_search_first_occurrence (line : str) :
  match search export_pattern line with
  | Some m =>
      exists pre w rest name,
        line = pre ++ w ++ rest /\ m_start m = length pre /\
        group1 m = name /\ export_declaration w name /\ name_ends rest /\
        (forall pre' w' rest' name',
            line = pre' ++ w' ++ rest' -> export_declaration w' name' ->
            (length pre <= length pre')%nat)
  | None =>
      forall pre w rest name,
        line = pre ++ w ++ rest -> ~ export_declaration w name
  end /\
  (forall filepath lines st i,
      total_items (visit_line filepath lines st (i, line))
      = total_items st
        + match search export_pattern line with Some _ => 1 | None => 0 end).
Proof.
  split.
  - unfold search. destruct (search_from export_pattern 0 line) as [m|] eqn:Hs.
    + apply search_from_some in Hs as (pre & s & s' & t & -> & Hst & Hrun & Hmin).
      assert (Hin : In (m_group1 m, s') (run export_pattern s))
        by (rewrite Hrun; now left).
      apply run_sound in Hin as (w & -> & Hacc).
      apply accepts_export_pattern in Hacc as (name & Hg & Hdecl).
      exists pre, w, s', name. repeat split.
      * exact Hst.
      * unfold group1. now rewrite Hg.
      * exact Hdecl.
      * exact (takes_whole_name_export _ _ _ _ Hrun).
      * intros pre' w' rest' name' Heq Hd'.
        destruct (Nat.le_gt_cases (length pre) (length pre')) as [|Hlt];
          [assumption|].
        specialize (Hmin pre' (w' ++ rest') Heq Hlt).
        assert (Hacc' : accepts export_pattern w' (Some name'))
          by (apply accepts_export_pattern; now exists name').
        apply run_complete with (s' := rest') in Hacc'.
        rewrite Hmin in Hacc'. contradiction.
    + intros pre w rest name Heq Hd.
      assert (Hrun := search_from_none _ _ _ Hs pre (w ++ rest) Heq).
      assert (Hacc : accepts export_pattern w (Some name))
        by (apply accepts_export_pattern; now exists name).
      apply run_complete with (s' := rest) in Hacc.
      rewrite Hrun in Hacc. contradiction.
  - intros filepath lines st i. unfold visit_line.
    destruct (search export_pattern line); [|lia].
    now destruct (has_docstring lines i).
Qed.

Lemma export_search_first_occurrence_witness :
  let line := lit "  export async function load(id) {" in
  exists pre w rest,
    line = pre ++ w ++ rest /\ length pre = 2%nat /\
    export_declaration w (lit "load") /\ name_ends rest.
Proof.
  intros line.
  assert (H := proj1 (export_search_first_occurrence line)).
  change (search export_pattern line)
    with (Some {| m_start := 2; m_group1 := Some (lit "load") |}) in H.
  destruct H as (pre & w & rest & name & Heq & Hst & Hg & Hd & He & _).
  exists pre, w, rest. rewrite <- Hg in Hd.
  split; [exact Heq|]. split; [symmetry; exact Hst|]. split; [exact Hd | exact He].
Defined.

(** A declaration whose name stands on the next line is not found, on
    either line. *)
Example name_on_next_line :
  map (search export_pattern) (split_nl (lit "export function
  add(a, b) {}"))
  = [None; None].
Proof. reflexivity. Qed.

(** ** The aggregator *)

Section Aggregator.

Lemma add_sites_nil (st : counters) : add_sites st [] = st.
Proof.
  destruct st as [t d m]. unfold add_sites. simpl.
  rewrite app_nil_r. f_equal; lia.
Qed.

Lemma add_sites_app (st : counters) (a b : list export_site) :
  add_sites (add_sites st a) b = add_sites st (a ++ b).
Proof.
  unfold add_sites, undocumented. simpl.
  rewrite !filter_app, map_app, !length_app, app_assoc.
  f_equal; lia.
Qed.

Lemma visit_line_add_sites (filepath : str) (lines : list str)
    (st : counters) (il : Z * str) :
  visit_line filepath lines st il
  = add_sites st (site_of_line filepath lines il).
Proof.
  destruct il as [i line]. unfold visit_line, site_of_line. simpl.
  destruct (search export_pattern line) as [m|].
  - destruct st as [t d ms]. unfold add_sites, undocumented, stored_location.
    simpl. destruct (has_docstring lines i); simpl.
    + rewrite app_nil_r. f_equal; lia.
    + f_equal; lia.
  - now rewrite add_sites_nil.
Qed.

Lemma fold_visit_line (filepath : str) (lines : list str)
    (l : list (Z * str)) (st : counters) :
  fold_left (visit_line filepath lines) l st
  = add_sites st (flat_map (site_of_line filepath lines) l).
Proof.
  revert st. induction l as [|il l IH]; intros st; simpl.
  - now rewrite add_sites_nil.
  - now rewrite IH, visit_line_add_sites, add_sites_app.
Qed.

Lemma visit_content_add_sites (filepath content : str) (st : counters) :
  visit_content filepath content st
  = add_sites st (sites_of_file filepath content).
Proof. apply fold_visit_line. Qed.

Lemma for_each_visit_file (fs : filesystem) (root : str) (files : list str)
    (st : counters) :
  let paths := map (path_join root) (filter selected files) in
  for_each (visit_file fs root) files st
  = match first_error fs paths with
    | Some e => Raise e
    | None => Return (add_sites st (sites_of_paths fs paths))
    end.
Proof.
  revert st. induction files as [|file files IH]; intros st; simpl.
  - now rewrite add_sites_nil.
  - unfold visit_file at 1. fold (selected file).
    destruct (selected file) eqn:Hsel; simpl; [|apply IH].
    destruct (read_text fs (path_join root file)) as [content|e]; simpl;
      [|reflexivity].
    rewrite IH. simpl.
    destruct (first_error fs (map (path_join root) (filter selected files)));
      [reflexivity|].
    now rewrite visit_content_add_sites, add_sites_app.
Qed.

Lemma sites_of_paths_app (fs : filesystem) (a b : list str) :
  sites_of_paths fs (a ++ b) = sites_of_paths fs a ++ sites_of_paths fs b.
Proof. unfold sites_of_paths. apply flat_map_app. Qed.

Lemma first_error_app (fs : filesystem) (a b : list str) :
  first_error fs (a ++ b)
  = match first_error fs a with
    | Some e => Some e
    | None => first_error fs b
    end.
Proof.
  induction a as [|p a IH]; simpl; [reflexivity|].
  now destruct (read_text fs p).
Qed.

Lemma for_each_visit_dir (fs : filesystem) (entries : list (str * list str))
    (st : counters) :
  let paths := flat_map (fun entry => map (path_join (fst entry))
                                          (filter selected (snd entry)))
                        entries in
  for_each (visit_dir fs) entries st
  = match first_error fs paths with
    | Some e => Raise e
    | None => Return (add_sites st (sites_of_paths fs paths))
    end.
Proof.
  revert st. induction entries as [|[root files] entries IH]; intros st; simpl.
  - now rewrite add_sites_nil.
  - rewrite for_each_visit_file, first_error_app, sites_of_paths_app. simpl.
    destruct (first_error fs (map (path_join root) (filter selected files)));
      simpl; [reflexivity|].
    rewrite IH. simpl.
    destruct (first_error fs _); [reflexivity|].
    now rewrite add_sites_app.
Qed.

(** The run as a whole: it raises the exception of the first selected
    file that cannot be read, and otherwise ends with the counters of
    all the sites discovered. *)
Lemma scan_outcome (fs : filesystem) (directory : str) :
  scan fs directory
  = match first_error fs (selected_paths fs directory) with
    | Some e => Raise e
    | None => Return (add_sites no_items (discovered fs directory))
    end.
Proof. apply for_each_visit_dir. Qed.

Lemma scan_discovered (fs : filesystem) (directory : str) (st : counters) :
  scan fs directory = Return st ->
  st = add_sites no_items (discovered fs directory).
Proof.
  rewrite scan_outcome.
  destruct (first_error fs (selected_paths fs directory)); [discriminate|].
  now intros [= <-].
Qed.

(** Where the first unreadable file stands. *)
Lemma first_error_some (fs : filesystem) (paths : list str) (e : exn) :
  first_error fs paths = Some e <->
  exists before filepath after,
    paths = before ++ filepath :: after /\
    read_text fs filepath = Raise e /\
    forall p, In p before -> exists content, read_text fs p = Return content.
Proof.
  split.
  - induction paths as [|p paths IH]; simpl; [discriminate|].
    destruct (read_text fs p) as [content|e'] eqn:Hread.
    + intros H. destruct (IH H) as (before & fp & after & -> & Hfp & Hb).
      exists (p :: before), fp, after. repeat split; [exact Hfp|].
      intros q [<- | Hq]; [now exists content | now apply Hb].
    + intros [= ->]. exists [], p, paths. repeat split; [exact Hread|].
      intros q [].
  - intros (before & fp & after & -> & Hfp & Hb).
    induction before as [|p before IH]; simpl.
    + now rewrite Hfp.
    + destruct (Hb p (or_introl eq_refl)) as [content ->].
      apply IH. intros q Hq. apply Hb. now right.
Qed.

Lemma first_error_none (fs : filesystem) (paths : list str) :
  first_error fs paths = None <->
  forall p, In p paths -> exists content, read_text fs p = Return content.
Proof.
  induction paths as [|p paths IH]; simpl.
  - split; [intros _ q [] | reflexivity].
  - destruct (read_text fs p) as [content|e] eqn:Hread.
    + rewrite IH. split.
      * intros H q [<- | Hq]; [now exists content | now apply H].
      * intros H q Hq. apply H. now right.
    + split; [discriminate|].
      intros H. destruct (H p (or_introl eq_refl)) as [c Hc]. congruence.
Qed.

Lemma filter_length_le {A} (f : A -> bool) (l : list A) :
  (length (filter f l) <= length l)%nat.
Proof. induction l as [|x l IH]; simpl; [lia | destruct (f x); simpl; lia]. Qed.

Lemma filter_length_split {A} (f : A -> bool) (l : list A) :
  (length (filter f l) + length (filter (fun x => negb (f x)) l)
   = length l)%nat.
Proof. induction l as [|x l IH]; simpl; [lia | destruct (f x); simpl; lia]. Qed.

(** Line numbers go up within a file. *)
Lemma sites_from_lower_bound (filepath : str) (lines l : list str) (i : Z) :
  Forall (fun s => i < site_line s)
         (flat_map (site_of_line filepath lines) (enumerate_from i l)).
Proof.
  revert i. induction l as [|x l IH]; intros i; simpl; [constructor|].
  apply Forall_app. split.
  - unfold site_of_line. simpl.
    destruct (search export_pattern x); constructor; simpl; [lia | constructor].
  - eapply Forall_impl; [|apply (IH (i + 1))]. simpl. intros s Hs. lia.
Qed.

Lemma sites_from_sorted (filepath : str) (lines l : list str) (i : Z) :
  StronglySorted Z.lt
    (map site_line
         (flat_map (site_of_line filepath lines) (enumerate_from i l))).
Proof.
  revert i. induction l as [|x l IH]; intros i; simpl; [constructor|].
  unfold site_of_line at 1. simpl.
  destruct (search export_pattern x); simpl; [|apply IH].
  constructor; [apply IH|].
  apply Forall_map. apply sites_from_lower_bound.
Qed.

End Aggregator.

(** C4: when a run ends, the documented count lies between zero and the
    total, the list of undocumented locations has total minus documented
    entries, and it holds exactly the export sites with the verdict
    undocumented, each once, in discovery order: files in the order of
    enumeration, and within a file by ascending line number. *)
Theorem aggregator_invariants (fs : filesystem) (directory : str) (st : counters) :
  scan fs directory = Return st ->
  0 <= items_with_docstrings st <= total_items st /\
  Z.of_nat (length (missing_docstrings st))
  = total_items st - items_with_docstrings st /\
  total_items st = Z.of_nat (length (discovered fs directory)) /\
  missing_docstrings st
  = map stored_location (undocumented (discovered fs directory)) /\
  (forall filepath content,
      StronglySorted Z.lt (map site_line (sites_of_file filepath content))).
Proof.
  intros H. apply scan_discovered in H. subst st. simpl.
  set (sites := discovered fs directory).
  assert (Hle := filter_length_le site_documented sites).
  assert (Hsplit := filter_length_split site_documented sites).
  repeat split; try lia.
  - unfold undocumented. rewrite length_map. lia.
  - intros filepath content. apply sites_from_sorted.
Qed.

Lemma aggregator_invariants_witness :
  exists st,
    scan scenario_d (lit "src") = Return st /\
    total_items st = 5 /\ items_with_docstrings st = 2 /\
    missing_docstrings st
    = map stored_location (undocumented (discovered scenario_d (lit "src"))).
Proof.
  eexists. split; [reflexivity|]. split; [reflexivity|]. split; [reflexivity|].
  apply (aggregator_invariants scenario_d (lit "src")). reflexivity.
Defined.

(** ** The reporter and the failures of a run *)

Section Reporter.

Lemma in_enumerate_from {A} (l : list A) (j i : Z) (x d : A) :
  In (i, x) (enumerate_from j l) ->
  j <= i < j + Z.of_nat (length l) /\ nth (Z.to_nat (i - j)) l d = x.
Proof.
  revert j. induction l as [|y l IH]; intros j H; simpl in H; [contradiction|].
  destruct H as [[= <- <-] | H].
  - rewrite Z.sub_diag. simpl. split; [lia | reflexivity].
  - apply IH in H as [Hb Hn]. split; [simpl length; lia|].
    replace (Z.to_nat (i - j)) with (S (Z.to_nat (i - (j + 1)))) by lia.
    exact Hn.
Qed.

(** Every site stands where the locator found it: its line, counted
    from one, is a line of its file that the pattern matches, and its
    name is group 1 of that match. *)
Lemma site_located (filepath content : str) (s : export_site) :
  In s (sites_of_file filepath content) ->
  site_file s = filepath /\
  1 <= site_line s <= Z.of_nat (length (split_nl content)) /\
  exists m,
    search export_pattern
           (nth (Z.to_nat (site_line s - 1)) (split_nl content) []) = Some m /\
    site_name s = group1 m /\
    site_documented s = has_docstring (split_nl content) (site_line s - 1).
Proof.
  unfold sites_of_file, enumerate. intros H.
  apply in_flat_map in H as ([i line] & Hin & Hs).
  apply (in_enumerate_from _ _ _ _ []) in Hin as [Hb Hn].
  unfold site_of_line in Hs. simpl in Hs.
  destruct (search export_pattern line) as [m|] eqn:Hm; [|contradiction].
  destruct Hs as [<- | []]. simpl.
  replace (i + 1 - 1) with i by lia. rewrite Z.sub_0_r in Hn.
  unfold str in *.
  split; [reflexivity|]. split; [lia|]. exists m. now rewrite Hn.
Qed.

Lemma discovered_located (fs : filesystem) (directory : str) (s : export_site) :
  In s (discovered fs directory) ->
  In (site_file s) (selected_paths fs directory) /\
  exists content,
    read_text fs (site_file s) = Return content /\
    In s (sites_of_file (site_file s) content).
Proof.
  unfold discovered, sites_of_paths. intros H.
  apply in_flat_map in H as (filepath & Hp & Hs).
  destruct (read_text fs filepath) as [content|e] eqn:Hread; [|contradiction].
  destruct (site_located _ _ _ Hs) as [Hf _]. rewrite Hf.
  split; [exact Hp|]. exists content. now split.
Qed.

Lemma check_docstrings_outcome (fs : filesystem) (directory : str) :
  check_docstrings fs directory
  = match first_error fs (selected_paths fs directory) with
    | Some e => Raise e
    | None => Return (report (add_sites no_items (discovered fs directory)))
    end.
Proof.
  unfold check_docstrings. rewrite scan_outcome.
  now destruct (first_error fs (selected_paths fs directory)).
Qed.

End Reporter.

(** C7: when every selected file can be read and the scan finds no
    exported item in the whole tree, the run ends normally and prints
    one line, the notice that no exported items were found; there is no
    coverage line, so no percentage is computed. *)
Theorem empty_corpus_notice (fs : filesystem) (directory : str) :
  (forall p, In p (selected_paths fs directory) ->
             exists content, read_text fs p = Return content) ->
  discovered fs directory = [] ->
  check_docstrings fs directory = Return [lit "No exported items found."].
Proof.
  intros Hread Hnone. rewrite check_docstrings_outcome.
  apply first_error_none in Hread. rewrite Hread, Hnone. reflexivity.
Qed.

Lemma empty_corpus_notice_witness :
  check_docstrings scenario_c (lit "src")
  = Return [lit "No exported items found."].
Proof.
  apply (empty_corpus_notice scenario_c (lit "src")).
  - intros p Hp. simpl in Hp. contradiction.
  - reflexivity.
Defined.

(** C8 (amended): in a run with at least one undocumented export, the
    three count lines are followed by the heading of the missing
    docstrings section and then by one entry for each undocumented
    export, in the order the aggregator stored them; an entry is the
    path, a colon, the line counted from one, a space, a hyphen, a
    space, and the name. *)
Theorem missing_section_rendering (fs : filesystem) (directory : str)
    (out : list str) :
  check_docstrings fs directory = Return out ->
  undocumented (discovered fs directory) <> [] ->
  skipn 3 out
  = (10%N :: lit "Missing docstrings:")
    :: map stored_location (undocumented (discovered fs directory)) /\
  length out = (4 + length (undocumented (discovered fs directory)))%nat /\
  (forall s, In s (discovered fs directory) ->
     exists content m,
       read_text fs (site_file s) = Return content /\
       1 <= site_line s /\
       search export_pattern
              (nth (Z.to_nat (site_line s - 1)) (split_nl content) [])
       = Some m /\
       site_name s = group1 m).
Proof.
  intros Hout Hsome. rewrite check_docstrings_outcome in Hout.
  destruct (first_error fs (selected_paths fs directory)); [discriminate|].
  injection Hout as <-.
  set (sites := discovered fs directory) in *.
  assert (Htotal : (total_items (add_sites no_items sites) =? 0) = false).
  { apply Z.eqb_neq. simpl. destruct sites; [now elim Hsome | simpl; lia]. }
  unfold report. rewrite Htotal. simpl missing_docstrings.
  destruct (map stored_location (undocumented sites)) as [|x t] eqn:Hmap.
  { apply map_eq_nil in Hmap. contradiction. }
  rewrite <- Hmap. repeat split.
  - rewrite length_app. simpl length. rewrite length_map. lia.
  - intros s Hs. apply discovered_located in Hs as (_ & content & Hread & Hs).
    apply site_located in Hs as (_ & Hline & m & Hm & Hname & _).
    exists content, m. repeat split; [assumption | lia | assumption..].
Qed.

Lemma missing_section_rendering_witness :
  exists out,
    check_docstrings scenario_d (lit "src") = Return out /\
    skipn 3 out
    = [10%N :: lit "Missing docstrings:"; lit "src/plain.tsx:1 - A";
       lit "src/plain.tsx:2 - B"; lit "src/plain.tsx:4 - C"].
Proof.
  eexists. split; [reflexivity|].
  apply (missing_section_rendering scenario_d (lit "src")).
  - reflexivity.
  - discriminate.
Defined.

(** C8 as written fails: the entry of an undocumented export holds a
    hyphen between the line and the name, and no em dash anywhere. *)
Lemma em_dash_entry_fails :
  exists out,
    check_docstrings scenario_a (lit "src") = Return out /\
    undocumented (discovered scenario_a (lit "src")) <> [] /\
    skipn 4 out = [lit "src/foo.ts:1 - foo"] /\
    skipn 4 out
    <> map em_dash_location (undocumented (discovered scenario_a (lit "src"))) /\
    (forall entry, In entry out -> ~ In em_dash entry).
Proof.
  eexists. split; [reflexivity|]. split; [discriminate|].
  split; [reflexivity|]. split; [discriminate|].
  intros entry Hentry Hdash. vm_compute in Hentry.
  repeat (destruct Hentry as [<- | Hentry];
          [vm_compute in Hdash;
           repeat (destruct Hdash as [Hdash | Hdash]; [discriminate|]);
           contradiction|]).
  contradiction.
Qed.

(** C9: when a selected file cannot be read, or its bytes are not valid
    text, the run raises: the exception is that of the first such file
    in the order of enumeration, all the files before it having been
    read, and nothing is printed, so that no coverage report, and in
    particular no report of zero coverage, comes out of such a run. *)
Theorem unreadable_file_is_fatal (fs : filesystem) (directory : str)
    (p : str) (e : exn) :
  In p (selected_paths fs directory) ->
  read_text fs p = Raise e ->
  exists e' before filepath after,
    check_docstrings fs directory = Raise e' /\
    scan fs directory = Raise e' /\
    selected_paths fs directory = before ++ filepath :: after /\
    read_text fs filepath = Raise e' /\
    (forall q, In q before -> exists content, read_text fs q = Return content) /\
    (forall out, check_docstrings fs directory <> Return out).
Proof.
  intros Hp He.
  destruct (first_error fs (selected_paths fs directory)) as [e'|] eqn:Hfirst.
  - destruct (proj1 (first_error_some _ _ _) Hfirst)
      as (before & filepath & after & Hsplit & Hraise & Hbefore).
    exists e', before, filepath, after.
    rewrite check_docstrings_outcome, scan_outcome, Hfirst.
    repeat split; try assumption. discriminate.
  - destruct (proj1 (first_error_none _ _) Hfirst p Hp) as [content Hc].
    congruence.
Qed.

Lemma unreadable_file_is_fatal_witness :
  exists e' before filepath after,
    check_docstrings scenario_unreadable (lit "src") = Raise e' /\
    scan scenario_unreadable (lit "src") = Raise e' /\
    selected_paths scenario_unreadable (lit "src")
    = before ++ filepath :: after /\
    read_text scenario_unreadable filepath = Raise e' /\
    (forall q, In q before ->
               exists content, read_text scenario_unreadable q = Return content) /\
    (forall out, check_docstrings scenario_unreadable (lit "src") <> Return out).
Proof.
  apply (unreadable_file_is_fatal scenario_unreadable (lit "src")
           (lit "src/b.ts") UnicodeDecodeError).
  - simpl. right. left. reflexivity.
  - reflexivity.
Defined.

(** ** The coverage percentage *)

Section Coverage.

Import Float64.

Lemma round_half_even_bound (n d : Z) :
  0 < d -> - d <= 2 * (round_half_even n d * d - n) <= d.
Proof.
  intros Hd. unfold round_half_even.
  assert (Hdm : n = d * (n / d) + n mod d) by (apply Z.div_mod; lia).
  assert (Hr := Z.mod_pos_bound n d Hd).
  set (q := n / d) in *. set (r := n mod d) in *.
  destruct (2 * r <? d) eqn:H1; [apply Z.ltb_lt in H1; nia|].
  apply Z.ltb_ge in H1.
  destruct (d <? 2 * r) eqn:H2; [apply Z.ltb_lt in H2; nia|].
  apply Z.ltb_ge in H2.
  destruct (Z.even q); nia.
Qed.

Lemma round_half_even_nonneg (n d : Z) :
  0 <= n -> 0 < d -> 0 <= round_half_even n d.
Proof.
  intros Hn Hd. unfold round_half_even.
  assert (Hq : 0 <= n / d) by (apply Z.div_pos; lia).
  destruct (2 * (n mod d) <? d); [exact Hq|].
  destruct (d <? 2 * (n mod d)); [lia|].
  destruct (Z.even (n / d)); lia.
Qed.

(** The rounding error of [nearest] is at most half a unit in the last
    place, and the last place is fine enough. *)
Lemma nearest_bounds (n d : Z) :
  0 <= n -> 0 < d -> Z.log2 n - Z.log2 d <= 52 ->
  let f := nearest n d in
  let s := - expo f in
  0 <= s /\ Z.min 1074 (52 - (Z.log2 n - Z.log2 d)) <= s /\
  0 <= mant f /\
  - d <= 2 * (mant f * d - n * 2 ^ s) <= d.
Proof.
  intros Hn Hd Hc. unfold nearest.
  set (c := Z.log2 n - Z.log2 d) in *.
  destruct (scale n d c) as [n0 d0].
  set (e := Z.max (-1074) (if d0 <=? n0 then c - 52 else c - 53)).
  assert (He : e <= 0 /\ e <= Z.max (-1074) (c - 52))
    by (unfold e; destruct (d0 <=? n0); lia).
  clearbody e. unfold scale. destruct (Z.leb_spec 0 e) as [H0 | H0].
  - assert (e = 0) by lia. subst e. cbv zeta. cbn [mant expo].
    change (- 0) with 0. rewrite Z.pow_0_r, !Z.mul_1_r.
    assert (Hb := round_half_even_bound n d Hd).
    assert (Hp := round_half_even_nonneg n d Hn Hd).
    split; [lia|]. split; [lia|]. split; [exact Hp | exact Hb].
  - cbv zeta. cbn [mant expo].
    assert (Hpow : 0 < 2 ^ (- e)) by (apply Z.pow_pos_nonneg; lia).
    assert (Hb := round_half_even_bound (n * 2 ^ (- e)) d Hd).
    assert (Hp := round_half_even_nonneg (n * 2 ^ (- e)) d ltac:(nia) Hd).
    split; [lia|]. split; [lia|]. split; [exact Hp | exact Hb].
Qed.

(** The hundredths printed are never negative, and below [2 ^ 37]
    items they are the exact percentage rounded to a nearest
    hundredth. *)
Lemma hundredths_facts (D T : Z) :
  0 <= D <= T -> 0 < T ->
  let h := hundredths (mul_int (int_truediv D T) 100) in
  0 <= h /\ (T < 2 ^ 37 -> 2 * Z.abs (h * T - 10000 * D) <= T).
Proof.
  intros HD HT. unfold int_truediv.
  assert (Hc1 : Z.log2 D - Z.log2 T <= 0)
    by (assert (Z.log2 D <= Z.log2 T) by (apply Z.log2_le_mono; lia); lia).
  destruct (nearest_bounds D T) as (Hs1 & Hmin1 & Hm1 & Hq1); try lia.
  set (q1 := nearest D T) in *.
  set (m1 := mant q1) in *. set (s1 := - expo q1) in *.
  set (A := 2 ^ s1) in *.
  assert (HA : 2 ^ 52 <= A) by (apply Z.pow_le_mono_r; lia).
  assert (Hm1A : m1 <= A) by nia.
  (* the product *)
  unfold mul_int, scale. fold m1 s1.
  assert (Hs1b : (0 <=? s1) = true) by (apply Z.leb_le; exact Hs1).
  rewrite Hs1b. fold A. rewrite Z.mul_1_l.
  assert (Hc2 : Z.log2 (m1 * 100) - Z.log2 A <= 6).
  { unfold A. rewrite Z.log2_pow2 by lia.
    destruct (Z.eq_dec m1 0) as [Hz | Hne];
      [rewrite Hz; replace (Z.log2 (0 * 100)) with 0 by reflexivity; lia|].
    assert (Z.log2 (m1 * 100) < s1 + 7); [|lia].
    apply Z.log2_lt_pow2; [lia|].
    rewrite Z.pow_add_r by lia. fold A. lia. }
  destruct (nearest_bounds (m1 * 100) A) as (Hs2 & Hmin2 & Hm2 & Hq2); try lia.
  set (q2 := nearest (m1 * 100) A) in *.
  set (m2 := mant q2) in *. set (s2 := - expo q2) in *.
  set (B := 2 ^ s2) in *.
  assert (HB : 2 ^ 46 <= B) by (apply Z.pow_le_mono_r; lia).
  (* the rendering *)
  unfold hundredths, scale. fold m2 s2.
  assert (Hs2b : (0 <=? s2) = true) by (apply Z.leb_le; exact Hs2).
  rewrite Hs2b. fold B. rewrite Z.mul_1_l.
  assert (Hh := round_half_even_bound (m2 * 100) B ltac:(lia)).
  assert (Hh0 := round_half_even_nonneg (m2 * 100) B ltac:(lia) ltac:(lia)).
  set (h := round_half_even (m2 * 100) B) in *.
  split; [exact Hh0|]. intros Hbound.
  (* the three errors add up to less than one unit of [h * T] *)
  set (P1 := h * B - m2 * 100) in *.
  set (P2 := m2 * A - m1 * 100 * B) in *.
  set (P3 := m1 * T - D * A) in *.
  set (X := h * T - 10000 * D).
  assert (Hid : 2 * X * (A * B)
                = T * A * (2 * P1) + 100 * T * (2 * P2) + 10000 * B * (2 * P3))
    by (unfold X, P1, P2, P3; ring).
  assert (HAB : 0 < A * B) by nia.
  assert (H1 : - (T * A * B) <= T * A * (2 * P1) <= T * A * B) by nia.
  assert (H2 : - (100 * T * A) <= 100 * T * (2 * P2) <= 100 * T * A) by nia.
  assert (H3 : - (10000 * B * T) <= 10000 * B * (2 * P3) <= 10000 * B * T)
    by nia.
  assert (Hsmall : 100 * T * A + 10000 * B * T < A * B).
  { assert (200 * T < B) by lia. assert (20000 * T <= A) by lia. nia. }
  set (M := A * B) in *.
  replace (T * A * B) with (T * M) in H1 by (unfold M; ring).
  assert (Hup : 2 * X * M < (T + 1) * M) by lia.
  assert (Hlo : (- (T + 1)) * M < 2 * X * M) by lia.
  apply Z.mul_lt_mono_pos_r in Hup; [|exact HAB].
  apply Z.mul_lt_mono_pos_r in Hlo; [|exact HAB].
  fold X. lia.
Qed.

Lemma hundredths_nearest (D T : Z) :
  0 <= D <= T -> 0 < T < 2 ^ 37 ->
  let h := hundredths (mul_int (int_truediv D T) 100) in
  0 <= h /\ 2 * Z.abs (h * T - 10000 * D) <= T.
Proof.
  intros HD HT.
  destruct (hundredths_facts D T HD ltac:(lia)) as [Hh Hnear].
  split; [exact Hh | apply Hnear; lia].
Qed.

End Coverage.

(** ** What the printed numbers read back as *)

Section Reader.

Lemma lit_cons (a : ascii) (s : string) :
  lit (String a s) = N_of_ascii a :: lit s.
Proof. reflexivity. Qed.

Lemma read_digits_uint_acc (d : Decimal.uint) (p : positive) :
  read_digits (Z.pos p) (lit (NilEmpty.string_of_uint d))
  = Some (Z.pos (Pos.of_uint_acc d p)).
Proof.
  revert p. induction d; intros p; cbn [NilEmpty.string_of_uint Pos.of_uint_acc];
    [reflexivity | rewrite lit_cons; cbn [read_digits]..];
    match goal with
    | |- context [digit_value ?c] =>
        let v := eval vm_compute in (digit_value c) in
        change (digit_value c) with v
    end;
    cbv iota beta;
    match goal with
    | |- read_digits ?a _ = Some (Z.pos (Pos.of_uint_acc _ ?q)) =>
        replace a with (Z.pos q) by lia
    end;
    apply IHd.
Qed.

Lemma read_digits_uint (d : Decimal.uint) :
  read_digits 0 (lit (NilEmpty.string_of_uint d))
  = Some (Z.of_N (Pos.of_uint d)).
Proof.
  induction d; cbn [NilEmpty.string_of_uint Pos.of_uint];
    [reflexivity | rewrite lit_cons; cbn [read_digits]..];
    match goal with
    | |- context [digit_value ?c] =>
        let v := eval vm_compute in (digit_value c) in
        change (digit_value c) with v
    end;
    cbv iota beta;
    [exact IHd | apply read_digits_uint_acc..].
Qed.

(** A number that [str] renders reads back as itself. *)
Lemma read_str_of_int (n : Z) :
  0 <= n -> read_decimal (str_of_int n) = Some n.
Proof.
  intros Hn. destruct n as [|p|p]; [reflexivity | | lia].
  unfold str_of_int. cbn [Z.to_int NilZero.string_of_int].
  assert (Hnil := DecimalPos.Unsigned.to_uint_nonnil p).
  assert (Hval := DecimalPos.Unsigned.of_to p).
  unfold NilZero.string_of_uint.
  destruct (Pos.to_uint p) as [|d|d|d|d|d|d|d|d|d|d] eqn:Hd; [congruence|..];
    rewrite <- Hd in *;
    (assert (Hread := read_digits_uint (Pos.to_uint p));
     rewrite Hval in Hread; rewrite Hd in Hread |- *;
     cbn [NilEmpty.string_of_uint] in Hread |- *;
     rewrite lit_cons in Hread |- *; exact Hread).
Qed.

Lemma str_of_digit (d : Z) :
  0 <= d <= 9 -> str_of_int d = [N.of_nat 48 + Z.to_N d]%N.
Proof.
  intros Hd.
  assert (Hc : d = 0 \/ d = 1 \/ d = 2 \/ d = 3 \/ d = 4 \/ d = 5 \/ d = 6
               \/ d = 7 \/ d = 8 \/ d = 9) by lia.
  repeat (destruct Hc as [-> | Hc]; [reflexivity|]). now subst d.
Qed.

Lemma digit_value_of_digit (d : Z) :
  0 <= d <= 9 -> digit_value (N.of_nat 48 + Z.to_N d)%N = Some d.
Proof.
  intros Hd.
  assert (Hc : d = 0 \/ d = 1 \/ d = 2 \/ d = 3 \/ d = 4 \/ d = 5 \/ d = 6
               \/ d = 7 \/ d = 8 \/ d = 9) by lia.
  repeat (destruct Hc as [-> | Hc]; [reflexivity|]). now subst d.
Qed.

(** The two decimals that [:.2f] writes read back as the hundredths
    written. *)
Lemma read_render_hundredths (h : Z) :
  0 <= h -> read_two_decimals (Float64.render_hundredths h) = Some h.
Proof.
  intros Hh. unfold Float64.render_hundredths, read_two_decimals.
  assert (H1 : 0 <= h mod 100 / 10 <= 9).
  { assert (0 <= h mod 100 < 100) by (apply Z.mod_pos_bound; lia).
    assert (0 <= h mod 100 / 10) by (apply Z.div_pos; lia).
    assert (h mod 100 / 10 < 10) by (apply Z.div_lt_upper_bound; lia). lia. }
  assert (H2 : 0 <= h mod 10 <= 9)
    by (assert (0 <= h mod 10 < 10) by (apply Z.mod_pos_bound; lia); lia).
  rewrite (str_of_digit _ H1), (str_of_digit _ H2).
  change (lit ".") with [46%N].
  rewrite !rev_app_distr. cbn [rev app]. rewrite rev_involutive.
  change (46 =? 46)%N with true. cbv iota.
  rewrite read_str_of_int by (apply Z.div_pos; lia).
  rewrite (digit_value_of_digit _ H1), (digit_value_of_digit _ H2).
  f_equal.
  assert (Ha := Z.div_mod h 100 ltac:(lia)).
  assert (Hb := Z.div_mod (h mod 100) 10 ltac:(lia)).
  assert (Hc : h mod 100 mod 10 = h mod 10).
  { replace 100 with (10 * 10) by reflexivity.
    rewrite Z.rem_mul_r by lia.
    rewrite Z.add_mod, Z.mul_mod, Z.mod_same, Z.mul_0_l by lia.
    rewrite Z.mod_0_l, Z.add_0_r by lia. now rewrite !Z.mod_mod by lia. }
  lia.
Qed.

End Reader.

(** The arithmetic above gives the numbers of the standard library's
    specification of binary64 division and multiplication. *)
Example coverage_value_agrees_with_ieee :
  let pairs := [(2, 5); (1, 3); (1, 4000); (3, 4000); (0, 7); (7, 7);
                (1, 32); (1, 800); (999, 1000); (123456789, 4294967295);
                (1, 2 ^ 36 + 1); (2 ^ 36, 2 ^ 36 + 1)] in
  map (fun p => Float64.to_spec_float
                  (Float64.mul_int (Float64.int_truediv (fst p) (snd p)) 100))
      pairs
  = map (fun p => SFmul 53 1024
                    (SFdiv 53 1024 (Float64.spec_of_int (fst p))
                                   (Float64.spec_of_int (snd p)))
                    (Float64.spec_of_int 100))
        pairs.
Proof. vm_compute. reflexivity. Qed.




(** ** The scenarios of the specification, run *)

Example scenario_a_report :
  check_docstrings scenario_a (lit "src")
  = Return [lit "Total exported items: 1"; lit "Items with docstrings: 0";
            lit "Docstring coverage: 0.00%";
            10%N :: lit "Missing docstrings:"; lit "src/foo.ts:1 - foo"].
Proof. vm_compute. reflexivity. Qed.

Example scenario_b_report :
  check_docstrings scenario_b (lit "src")
  = Return [lit "Total exported items: 1"; lit "Items with docstrings: 1";
            lit "Docstring coverage: 100.00%"].
Proof. vm_compute. reflexivity. Qed.

Example scenario_d_report :
  check_docstrings scenario_d (lit "src")
  = Return [lit "Total exported items: 5"; lit "Items with docstrings: 2";
            lit "Docstring coverage: 40.00%";
            10%N :: lit "Missing docstrings:"; lit "src/plain.tsx:1 - A";
            lit "src/plain.tsx:2 - B"; lit "src/plain.tsx:4 - C"].
Proof. vm_compute. reflexivity. Qed.

(** A percentage that lies half way between two hundredths is printed
    as the binary value falls: below for three in four thousand, above
    for one in four thousand. *)
Example half_way_percentages :
  map (fun p => Float64.format_2f
                  (Float64.mul_int (Float64.int_truediv (fst p) (snd p)) 100))
      [(3, 4000); (1, 4000); (1, 32)]
  = [lit "0.07"; lit "0.03"; lit "3.12"].
Proof. vm_compute. reflexivity. Qed.

(** * Further properties of [check_docstrings.py] *)

(** ** Trimming and the classifier *)

Section MoreClassifier.

Lemma lstrip_nil (l : str) : lstrip l = [] <-> forallb isspace l = true.
Proof.
  induction l as [|c l IH]; simpl; [tauto|].
  destruct (isspace c); simpl; [exact IH|]. split; discriminate.
Qed.

Lemma lstrip_keeps_last (l : str) (c : char) :
  isspace c = false -> lstrip (l ++ [c]) <> [].
Proof.
  intros Hc. induction l as [|x l IH]; simpl.
  - now rewrite Hc.
  - destruct (isspace x); [exact IH | discriminate].
Qed.

Lemma lstrip_head (l : str) (c : char) (t : str) :
  lstrip l = c :: t -> isspace c = false.
Proof.
  induction l as [|x l IH]; simpl; [discriminate|].
  destruct (isspace x) eqn:Hx; [exact IH|]. now intros [= <- _].
Qed.

Lemma classify_stripped (ls ls' : list str) :
  map strip ls = map strip ls' -> classify ls = classify ls'.
Proof. intros H. now rewrite !classify_first_stop, H. Qed.

Lemma classify_transparent_then_doc (ds : list str) (c : str) (rest : list str) :
  (forall l, In l ds ->
             is_blank (strip l) || is_decorator (strip l) = true) ->
  is_doc_comment (strip c) = true ->
  classify (ds ++ c :: rest) = true.
Proof.
  intros Hds Hc. induction ds as [|l ds IH]; simpl.
  - destruct (is_blank (strip c)) eqn:Hb.
    + apply blank_not_doc_comment in Hb. congruence.
    + now rewrite Hc.
  - assert (Hl := Hds l (or_introl eq_refl)).
    assert (IH' : classify (ds ++ c :: rest) = true)
      by (apply IH; intros l' Hl'; apply Hds; now right).
    destruct (is_blank (strip l)); [exact IH'|].
    destruct (is_doc_comment (strip l)); [reflexivity|].
    simpl in Hl. now rewrite Hl.
Qed.

Lemma classify_scanned_past_then_code (ds : list str) (c : str) (rest : list str) :
  (forall l, In l ds -> scanned_past (strip l) = true) ->
  is_blank (strip c) = false -> is_doc_comment (strip c) = false ->
  is_decorator (strip c) = false ->
  classify (ds ++ c :: rest) = false.
Proof.
  intros Hds Hb Hd Hdec. induction ds as [|l ds IH]; simpl.
  - now rewrite Hb, Hd, Hdec.
  - assert (Hl := Hds l (or_introl eq_refl)).
    assert (IH' : classify (ds ++ c :: rest) = false)
      by (apply IH; intros l' Hl'; apply Hds; now right).
    unfold scanned_past in Hl.
    destruct (is_blank (strip l)); [exact IH'|].
    simpl in Hl. apply andb_true_iff in Hl as [Hdl Hnd].
    apply negb_true_iff in Hnd. now rewrite Hnd, Hdl.
Qed.

End MoreClassifier.

(** X1: a line counts as blank for the classifier exactly when all its
    characters are white space. *)
Theorem blank_iff_all_space (l : str) :
  is_blank (strip l) = forallb isspace l.
Proof.
  unfold strip, rstrip.
  destruct (forallb isspace l) eqn:Hall.
  - apply lstrip_nil in Hall. now rewrite Hall.
  - destruct (lstrip l) as [|c t] eqn:Hl.
    + apply lstrip_nil in Hl. congruence.
    + assert (Hc := lstrip_head _ _ _ Hl). simpl rev.
      assert (Hne := lstrip_keeps_last (rev t) c Hc).
      destruct (lstrip (rev t ++ [c])) as [|x u] eqn:Hr; [congruence|].
      simpl. now destruct (rev u ++ [x]) eqn:Hu; [destruct (rev u)|].
Qed.

(** X2: a documentation comment is found through any mix of at most
    eight blank lines and decorator lines between it and the export,
    and also when it stands right above the export. *)
Theorem doc_comment_within_reach (lines : list str) (i n : nat) :
  (i < length lines)%nat -> (n <= 8)%nat -> (n < i)%nat ->
  (forall k, (1 <= k <= n)%nat ->
             is_blank (strip (nth (i - k) lines []))
             || is_decorator (strip (nth (i - k) lines [])) = true) ->
  is_doc_comment (strip (nth (i - S n) lines [])) = true ->
  has_docstring lines (Z.of_nat i) = true.
Proof.
  intros Hi Hn Hni Hskip Hdoc.
  rewrite has_docstring_classify by lia.
  destruct (preceding9_split lines i n) as (ds & rest & -> & Hds); try lia.
  apply classify_transparent_then_doc; [|exact Hdoc].
  intros l Hl. destruct (Hds l Hl) as (k & Hk & ->). now apply Hskip.
Qed.

Lemma doc_comment_within_reach_witness :
  let lines := [lit "  /** Loads a user. */"; lit ""; lit "  @cached";
                lit "   "; lit "  export async function load(id) {}"] in
  has_docstring lines 4 = true.
Proof.
  intros lines. apply (doc_comment_within_reach lines 4 3).
  - simpl; lia.
  - lia.
  - lia.
  - intros k Hk. each_distance k.
  - reflexivity.
Defined.

(** X3: when the first line above the export that is not passed over
    (at most eight lines are passed over) is neither a documentation
    comment nor a decorator line, the verdict is undocumented, whatever
    stands above that line. *)
Theorem other_code_breaks_chain (lines : list str) (i n : nat) :
  (i < length lines)%nat -> (n <= 8)%nat -> (n < i)%nat ->
  (forall k, (1 <= k <= n)%nat ->
             scanned_past (strip (nth (i - k) lines [])) = true) ->
  is_blank (strip (nth (i - S n) lines [])) = false ->
  is_doc_comment (strip (nth (i - S n) lines [])) = false ->
  is_decorator (strip (nth (i - S n) lines [])) = false ->
  has_docstring lines (Z.of_nat i) = false.
Proof.
  intros Hi Hn Hni Hskip Hb Hd Hdec.
  rewrite has_docstring_classify by lia.
  destruct (preceding9_split lines i n) as (ds & rest & -> & Hds); try lia.
  apply classify_scanned_past_then_code; try assumption.
  intros l Hl. destruct (Hds l Hl) as (k & Hk & ->). now apply Hskip.
Qed.

Lemma other_code_breaks_chain_witness :
  let lines := [lit "/** Documents the constant, not the class. */";
                lit "// the registry";
                lit "@sealed"; lit "";
                lit "export class Registry {}"] in
  is_doc_comment (strip (nth 0 lines [])) = true /\
  has_docstring lines 4 = false.
Proof.
  intros lines. split; [reflexivity|].
  apply (other_code_breaks_chain lines 4 2).
  - simpl; lia.
  - lia.
  - lia.
  - intros k Hk. each_distance k.
  - reflexivity.
  - reflexivity.
  - reflexivity.
Defined.

(** X4: the verdict does not depend on how the lines above the export
    are indented, nor on white space at their ends: two files whose
    nine preceding lines agree once trimmed get the same verdict. *)
Theorem verdict_ignores_indentation (lines lines' : list str) (i : nat) :
  (i < length lines)%nat -> (i < length lines')%nat ->
  map strip (preceding9 lines i) = map strip (preceding9 lines' i) ->
  has_docstring lines (Z.of_nat i) = has_docstring lines' (Z.of_nat i).
Proof.
  intros Hi Hi' Heq. rewrite !has_docstring_classify by lia.
  now apply classify_stripped.
Qed.

Lemma verdict_ignores_indentation_witness :
  let flat := [lit "/// Adds."; lit "@memo"; lit "export const add = 1;"] in
  let nested := [lit "    /// Adds.  "; 9%N :: lit "@memo";
                 lit "    export const add = 1;"] in
  has_docstring flat 2 = has_docstring nested 2.
Proof.
  intros flat nested. apply (verdict_ignores_indentation flat nested 2).
  - simpl; lia.
  - simpl; lia.
  - reflexivity.
Defined.

(** ** The locator and the lines of a file *)

Section MoreLocator.

Lemma shift_match_add (j k : nat) (m : match_object) :
  shift_match j (shift_match k m) = shift_match (j + k) m.
Proof. unfold shift_match. simpl. f_equal. lia. Qed.

Lemma search_from_shift (r : regex) (pos : nat) (s : str) :
  search_from r pos s = option_map (shift_match pos) (search_from r 0 s).
Proof.
  revert pos. induction s as [|c s IH]; intros pos; simpl.
  - destruct (run r []) as [|[g s'] t]; [reflexivity|].
    simpl. unfold shift_match. simpl. now rewrite Nat.add_0_r.
  - destruct (run r (c :: s)) as [|[g s'] t].
    + rewrite (IH (S pos)), (IH 1%nat).
      destruct (search_from r 0 s) as [m|]; [|reflexivity].
      simpl. rewrite shift_match_add. do 2 f_equal. lia.
    + simpl. unfold shift_match. simpl. now rewrite Nat.add_0_r.
Qed.

(** No match of the pattern starts at a white-space character. *)
Lemma run_export_at_space (c : char) (s : str) :
  isspace c = true -> run export_pattern (c :: s) = [].
Proof.
  intros Hc. unfold export_pattern.
  assert (Hmiss : startswith (c :: s) (lit "export") = false).
  { change (lit "export") with (101%N :: lit "xport"). cbn [startswith].
    destruct (N.eqb_spec 101 c) as [<- |]; [discriminate | reflexivity]. }
  cbn [run]. now rewrite Hmiss.
Qed.

Lemma split_nl_nonempty (s : str) : split_nl s <> [].
Proof.
  destruct s as [|c s]; simpl; [discriminate|].
  destruct (c =? 10)%N; [discriminate|].
  destruct (split_nl s); discriminate.
Qed.

Lemma join_split (s : str) : join_nl (split_nl s) = s.
Proof.
  induction s as [|c s IH]; [reflexivity|].
  assert (Hne := split_nl_nonempty s).
  cbn [split_nl].
  destruct (split_nl s) as [|l ls]; [congruence|].
  destruct (N.eqb_spec c 10) as [-> | Hc].
  - change (join_nl ([] :: l :: ls)) with (10%N :: join_nl (l :: ls)).
    now rewrite IH.
  - rewrite <- IH. now destruct ls.
Qed.

Lemma split_nl_no_newline (s : str) :
  Forall (fun l => ~ In 10%N l) (split_nl s).
Proof.
  induction s as [|c s IH]; simpl.
  - constructor; [intros [] | constructor].
  - destruct (N.eqb_spec c 10) as [-> | Hc].
    + constructor; [intros [] | exact IH].
    + destruct (split_nl s) as [|l ls]; [repeat constructor; intros [H | []]; congruence|].
      inversion IH as [|? ? Hl Hls]; subst.
      constructor; [|exact Hls]. intros [H | H]; [congruence | now apply Hl].
Qed.

Lemma split_nl_length (s : str) :
  length (split_nl s) = S (count_occ N.eq_dec s 10%N).
Proof.
  induction s as [|c s IH]; simpl; [reflexivity|].
  destruct (N.eqb_spec c 10) as [-> | Hc].
  - simpl. rewrite IH. now destruct (N.eq_dec 10 10).
  - destruct (N.eq_dec c 10); [contradiction|].
    destruct (split_nl s); simpl in *; [discriminate | exact IH].
Qed.

Lemma split_join (ls : list str) :
  ls <> [] -> Forall (fun l => ~ In 10%N l) ls ->
  split_nl (join_nl ls) = ls.
Proof.
  induction ls as [|l ls IH]; intros Hne Hall; [congruence|].
  inversion Hall as [|? ? Hl Hls]; subst.
  assert (Hone : forall rest, split_nl rest <> [] ->
                 split_nl (l ++ rest)
                 = match split_nl rest with
                   | x :: xs => (l ++ x) :: xs
                   | [] => []
                   end).
  { intros rest Hrest. clear -Hl Hrest. induction l as [|c l IHl]; simpl.
    - now destruct (split_nl rest).
    - destruct (N.eqb_spec c 10) as [-> | Hc]; [elim Hl; now left|].
      rewrite IHl by (intros H; apply Hl; now right).
      now destruct (split_nl rest). }
  destruct ls as [|l' ls].
  - simpl. rewrite <- (app_nil_r l) at 1. rewrite Hone by apply split_nl_nonempty.
    simpl. now rewrite app_nil_r.
  - change (join_nl (l :: l' :: ls)) with (l ++ 10%N :: join_nl (l' :: ls)).
    rewrite Hone by apply split_nl_nonempty.
    change (split_nl (10%N :: join_nl (l' :: ls)))
      with ([] :: split_nl (join_nl (l' :: ls))).
    cbv iota. rewrite app_nil_r. f_equal. apply IH; [discriminate | exact Hls].
Qed.


End MoreLocator.

(** X5: indentation does not hide an export: white space put before a
    line moves the match that many places to the right and changes
    neither whether the line matches nor the name found. *)
Theorem search_skips_indentation (ws line : str) :
  forallb isspace ws = true ->
  search export_pattern (ws ++ line)
  = option_map (shift_match (length ws)) (search export_pattern line).
Proof.
  unfold search. induction ws as [|c ws IH]; intros Hws;
    cbn [app length forallb] in *.
  - destruct (search_from export_pattern 0 line) as [[p g]|]; reflexivity.
  - apply andb_true_iff in Hws as [Hc Hws].
    change (search_from export_pattern 0 (c :: ws ++ line))
      with (match run export_pattern (c :: ws ++ line) with
            | (g, _) :: _ => Some {| m_start := 0; m_group1 := g |}
            | [] => search_from export_pattern 1 (ws ++ line)
            end).
    rewrite run_export_at_space by exact Hc.
    rewrite search_from_shift, (IH Hws).
    destruct (search_from export_pattern 0 line) as [m|]; [|reflexivity].
    simpl. now rewrite shift_match_add.
Qed.

Lemma search_skips_indentation_witness :
  search export_pattern (lit "    " ++ lit "export enum Color { Red }")
  = Some {| m_start := 4; m_group1 := Some (lit "Color") |}.
Proof.
  rewrite (search_skips_indentation (lit "    ") (lit "export enum Color { Red }"));
    reflexivity.
Defined.

(** X6: splitting a text at its newlines loses nothing: joining the
    lines with newlines gives the text back, no line holds a newline,
    there is one line more than there are newlines, and a list of
    lines without newlines is what its joined text splits into. *)
Theorem split_nl_round_trip (content : str) :
  join_nl (split_nl content) = content /\
  Forall (fun l => ~ In 10%N l) (split_nl content) /\
  length (split_nl content) = S (count_occ N.eq_dec content 10%N) /\
  (forall ls, ls <> [] -> Forall (fun l => ~ In 10%N l) ls ->
              split_nl (join_nl ls) = ls).
Proof.
  split; [apply join_split|]. split; [apply split_nl_no_newline|].
  split; [apply split_nl_length | apply split_join].
Qed.



(** ** Runs, files and the report *)

Section MoreRuns.

Lemma first_error_ext (fs fs' : filesystem) (paths : list str) :
  (forall p, In p paths -> read_text fs p = read_text fs' p) ->
  first_error fs paths = first_error fs' paths.
Proof.
  induction paths as [|p paths IH]; intros H; simpl; [reflexivity|].
  rewrite <- (H p (or_introl eq_refl)).
  destruct (read_text fs p); [|reflexivity].
  apply IH. intros q Hq. apply H. now right.
Qed.

Lemma sites_of_paths_ext (fs fs' : filesystem) (paths : list str) :
  (forall p, In p paths -> read_text fs p = read_text fs' p) ->
  sites_of_paths fs paths = sites_of_paths fs' paths.
Proof.
  induction paths as [|p paths IH]; intros H; simpl; [reflexivity|].
  rewrite <- (H p (or_introl eq_refl)). f_equal.
  apply IH. intros q Hq. apply H. now right.
Qed.







(** The hundredths printed for [D] documented items out of [T]. *)
Lemma hundredths_range (D T : Z) :
  0 <= D <= T -> 0 < T < 2 ^ 37 ->
  let h := Float64.hundredths
             (Float64.mul_int (Float64.int_truediv D T) 100) in
  0 <= h <= 10000 /\
  (20000 * (T - D) < T -> h = 10000) /\
  (20000 * D < T -> h = 0).
Proof.
  intros HD HT h.
  destruct (hundredths_nearest D T HD HT) as [Hh Hnear]. fold h in Hh, Hnear.
  assert (Habs : - T <= 2 * (h * T - 10000 * D) <= T) by lia.
  split; [|split].
  - split; [exact Hh | nia].
  - intros Hfew. assert (h <= 10000) by nia. assert (9999 < h) by nia. lia.
  - intros Hfew. assert (h < 1) by nia. lia.
Qed.

Lemma flat_map_nested {A B C} (f : A -> list B) (g : B -> list C) (l : list A) :
  flat_map g (flat_map f l) = flat_map (fun x => flat_map g (f x)) l.
Proof.
  induction l as [|x l IH]; simpl; [reflexivity|].
  now rewrite flat_map_app, IH.
Qed.

Lemma sites_of_paths_nested (fs : filesystem) (dirs : list str) :
  sites_of_paths fs (flat_map (selected_paths fs) dirs)
  = flat_map (discovered fs) dirs.
Proof. unfold sites_of_paths, discovered. apply flat_map_nested. Qed.

(** When no file of a list of subtrees fails, each subtree scans. *)
Lemma subtree_scans (fs : filesystem) (dirs : list str) :
  first_error fs (flat_map (selected_paths fs) dirs) = None ->
  Forall2 (fun d sub => scan fs d = Return sub) dirs
          (map (fun d => add_sites no_items (discovered fs d)) dirs).
Proof.
  induction dirs as [|d dirs IH]; simpl; intros H; [constructor|].
  rewrite first_error_app in H.
  destruct (first_error fs (selected_paths fs d)) eqn:Hd; [discriminate|].
  constructor; [|now apply IH].
  rewrite scan_outcome. now rewrite Hd.
Qed.

(** The counters of the subtrees add up to those of their sites taken
    together. *)
Lemma subtree_counts (fs : filesystem) (dirs : list str) :
  let all := flat_map (discovered fs) dirs in
  let subs := map (fun d => add_sites no_items (discovered fs d)) dirs in
  Z.of_nat (length all) = fold_right Z.add 0 (map total_items subs) /\
  Z.of_nat (length (filter site_documented all))
  = fold_right Z.add 0 (map items_with_docstrings subs) /\
  map stored_location (undocumented all)
  = concat (map missing_docstrings subs).
Proof.
  induction dirs as [|d dirs IH]; [now repeat split|].
  destruct IH as (Ht & Hd & Hm).
  cbn [flat_map map fold_right concat].
  unfold undocumented in *.
  rewrite !filter_app, map_app, !length_app.
  cbn [add_sites no_items total_items items_with_docstrings missing_docstrings
       app].
  unfold undocumented. rewrite <- Ht, <- Hd, <- Hm.
  repeat split; lia.
Qed.

End MoreRuns.

(** X8: only the files whose name ends in [.ts] or [.tsx] are read:
    two trees with the same directory listing whose selected files
    read alike give the same outcome of the run, whatever their other
    files hold and whether or not those can be read. *)
Theorem unselected_files_are_not_read (fs fs' : filesystem) (directory : str) :
  os_walk fs directory = os_walk fs' directory ->
  (forall p, In p (selected_paths fs directory) ->
             read_text fs p = read_text fs' p) ->
  check_docstrings fs directory = check_docstrings fs' directory.
Proof.
  intros Hwalk Hread.
  assert (Hpaths : selected_paths fs' directory = selected_paths fs directory)
    by (unfold selected_paths; now rewrite Hwalk).
  rewrite !check_docstrings_outcome. unfold discovered. rewrite Hpaths.
  rewrite (first_error_ext fs fs' _ Hread).
  now rewrite (sites_of_paths_ext fs fs' _ Hread).
Qed.

Lemma unselected_files_are_not_read_witness :
  check_docstrings scenario_c (lit "src")
  = check_docstrings
      (tree ["README.md"; "notes.txt"]%string []) (lit "src").
Proof.
  apply (unselected_files_are_not_read scenario_c
           (tree ["README.md"; "notes.txt"]%string []) (lit "src")).
  - reflexivity.
  - intros p Hp. simpl in Hp. contradiction.
Defined.




(** X11: when every export found is documented (and there are fewer
    than [2 ^ 37] of them), the report is exactly three lines: the
    total, the same number of documented items, and a coverage of
    100.00 percent; there is no section of missing docstrings. *)
Theorem fully_documented_report (fs : filesystem) (directory : str)
    (out : list str) :
  check_docstrings fs directory = Return out ->
  discovered fs directory <> [] ->
  undocumented (discovered fs directory) = [] ->
  Z.of_nat (length (discovered fs directory)) < 2 ^ 37 ->
  out = [lit "Total exported items: "
           ++ str_of_int (Z.of_nat (length (discovered fs directory)));
         lit "Items with docstrings: "
           ++ str_of_int (Z.of_nat (length (discovered fs directory)));
         lit "Docstring coverage: 100.00%"].
Proof.
  intros Hout Hsome Hnone Hbound.
  rewrite check_docstrings_outcome in Hout.
  destruct (first_error fs (selected_paths fs directory)); [discriminate|].
  injection Hout as <-.
  set (sites := discovered fs directory) in *.
  assert (Hsplit := filter_length_split site_documented sites).
  fold (undocumented sites) in Hsplit. rewrite Hnone in Hsplit.
  simpl length in Hsplit. rewrite Nat.add_0_r in Hsplit.
  unfold report.
  cbn [add_sites no_items total_items items_with_docstrings missing_docstrings].
  rewrite Hnone, Hsplit, !Z.add_0_l. cbn [map app].
  set (T := Z.of_nat (length sites)) in *.
  assert (HT : 0 < T) by (unfold T; destruct sites; [congruence | simpl; lia]).
  assert (Hne : (T =? 0) = false) by (apply Z.eqb_neq; lia).
  rewrite Hne.
  destruct (hundredths_range T T ltac:(lia) ltac:(lia)) as (_ & Hfull & _).
  unfold Float64.format_2f. rewrite Hfull by lia.
  reflexivity.
Qed.

Lemma fully_documented_report_witness :
  exists out,
    check_docstrings scenario_b (lit "src") = Return out /\
    out = [lit "Total exported items: 1"; lit "Items with docstrings: 1";
           lit "Docstring coverage: 100.00%"].
Proof.
  eexists. split; [reflexivity|].
  rewrite (fully_documented_report scenario_b (lit "src") _ eq_refl).
  - reflexivity.
  - discriminate.
  - reflexivity.
  - reflexivity.
Defined.

(** X12: the percentage of the coverage line lies between 0.00 and
    100.00 (for fewer than [2 ^ 37] items); the line reads 0.00 when no
    item is documented; and it reads 100.00 not only when every item is
    documented but as soon as fewer than one item in twenty thousand is
    undocumented. *)
Theorem percentage_range (fs : filesystem) (directory : str) (out : list str) :
  check_docstrings fs directory = Return out ->
  let sites := discovered fs directory in
  let total := Z.of_nat (length sites) in
  let documented := Z.of_nat (length (filter site_documented sites)) in
  0 < total < 2 ^ 37 ->
  (exists text h,
     nth 2 out [] = lit "Docstring coverage: " ++ text ++ lit "%" /\
     read_two_decimals text = Some h /\ 0 <= h <= 10000) /\
  (documented = 0 -> nth 2 out [] = lit "Docstring coverage: 0.00%") /\
  (20000 * (total - documented) < total ->
   nth 2 out [] = lit "Docstring coverage: 100.00%").
Proof.
  intros Hout sites total documented Htotal.
  rewrite check_docstrings_outcome in Hout.
  destruct (first_error fs (selected_paths fs directory)); [discriminate|].
  injection Hout as <-. fold sites.
  unfold report.
  cbn [add_sites no_items total_items items_with_docstrings missing_docstrings].
  rewrite !Z.add_0_l. fold total documented.
  assert (Hne : (total =? 0) = false) by (apply Z.eqb_neq; lia).
  rewrite Hne. cbn [nth app].
  assert (Hle := filter_length_le site_documented sites).
  destruct (hundredths_range documented total) as (Hr & Hfull & Hzero);
    [unfold documented, total; lia | exact Htotal |].
  unfold Float64.format_2f.
  split; [|split].
  - eexists. eexists. split; [reflexivity|].
    split; [apply read_render_hundredths; lia | exact Hr].
  - intros H0. rewrite Hzero by lia. reflexivity.
  - intros Hfew. rewrite Hfull by exact Hfew. reflexivity.
Qed.

Lemma percentage_range_witness :
  exists out,
    check_docstrings scenario_a (lit "src") = Return out /\
    nth 2 out [] = lit "Docstring coverage: 0.00%".
Proof.
  eexists. split; [reflexivity|].
  apply (percentage_range scenario_a (lit "src") _ eq_refl);
    [vm_compute; split; reflexivity | reflexivity].
Defined.

(** ** Two more consequences *)

(** X16: a verdict of documented needs a documentation comment among
    the at most nine lines right above the export: without one there,
    the export is undocumented whatever else those lines hold. *)
Theorem documented_needs_comment_in_window (lines : list str) (i : nat) :
  (i < length lines)%nat ->
  has_docstring lines (Z.of_nat i) = true ->
  exists k, (1 <= k <= 9)%nat /\ (k <= i)%nat /\
            is_doc_comment (strip (nth (i - k) lines [])) = true.
Proof.
  intros Hi Hdoc. rewrite has_docstring_classify in Hdoc by lia.
  rewrite classify_first_stop in Hdoc.
  destruct (find _ (map strip (preceding9 lines i))) as [l|] eqn:Hfind;
    [|discriminate].
  apply find_some in Hfind as [Hin _].
  apply in_map_iff in Hin as (l0 & <- & Hin).
  apply (In_nth _ _ []) in Hin as (k & Hk & <-).
  rewrite preceding9_length in Hk by lia.
  rewrite preceding9_nth in Hdoc by lia.
  exists (S k). split; [lia|]. split; [lia|].
  now replace (i - S k)%nat with (i - 1 - k)%nat by lia.
Qed.

Lemma documented_needs_comment_in_window_witness :
  let lines := [lit "/** Adds. */"; lit "@memo"; lit "";
                lit "export function add(a, b) {}"] in
  exists k, (1 <= k <= 9)%nat /\ (k <= 3)%nat /\
            is_doc_comment (strip (nth (3 - k) lines [])) = true.
Proof.
  intros lines.
  apply (documented_needs_comment_in_window lines 3); [simpl; lia | reflexivity].
Defined.

(** X17: scanning composes over the tree.  The walk of a directory
    gives the directory itself first and then the walks of its
    subdirectories; when the scan of the whole returns, so do the scan
    of the files of the directory itself and the scans of the
    subdirectories, the totals and documented counts of the whole are
    the sums of theirs, and the list of undocumented locations is
    theirs one after the other, in the order of the walk. *)
Theorem scan_of_tree (fs : filesystem) (whole root : str) (files : list str)
    (subdirs : list str) (st : counters) :
  os_walk fs whole = (root, files) :: flat_map (os_walk fs) subdirs ->
  scan fs whole = Return st ->
  exists top subs,
    for_each (visit_file fs root) files no_items = Return top /\
    Forall2 (fun d sub => scan fs d = Return sub) subdirs subs /\
    total_items st
    = total_items top + fold_right Z.add 0 (map total_items subs) /\
    items_with_docstrings st
    = items_with_docstrings top
      + fold_right Z.add 0 (map items_with_docstrings subs) /\
    missing_docstrings st
    = missing_docstrings top ++ concat (map missing_docstrings subs).
Proof.
  intros Hwalk Hscan.
  set (paths0 := map (path_join root) (filter selected files)).
  assert (Hpaths : selected_paths fs whole
                   = paths0 ++ flat_map (selected_paths fs) subdirs).
  { unfold selected_paths at 1. rewrite Hwalk. cbn [flat_map fst snd].
    fold paths0. f_equal. apply flat_map_nested. }
  rewrite scan_outcome in Hscan. unfold discovered in Hscan.
  rewrite Hpaths, first_error_app, sites_of_paths_app in Hscan.
  destruct (first_error fs paths0) eqn:H0; [discriminate|].
  destruct (first_error fs (flat_map (selected_paths fs) subdirs)) eqn:Hrest;
    [discriminate|].
  injection Hscan as <-.
  exists (add_sites no_items (sites_of_paths fs paths0)),
         (map (fun d => add_sites no_items (discovered fs d)) subdirs).
  split; [rewrite for_each_visit_file; fold paths0; now rewrite H0|].
  split; [now apply subtree_scans|].
  rewrite sites_of_paths_nested.
  destruct (subtree_counts fs subdirs) as (Ht & Hd & Hm).
  set (all := flat_map (discovered fs) subdirs) in *.
  set (subs := map (fun d => add_sites no_items (discovered fs d)) subdirs) in *.
  set (sites0 := sites_of_paths fs paths0).
  cbn [add_sites no_items total_items items_with_docstrings missing_docstrings].
  unfold undocumented in *.
  rewrite !filter_app, map_app, !length_app, Hm.
  cbn [app]. split; [lia|]. split; [lia | reflexivity].
Qed.

Lemma scan_of_tree_witness :
  let fs := {| os_walk := fun directory =>
                 if startswith directory (lit "src/")
                 then [(directory, [lit "index.ts"])]
                 else [(lit "src", [lit "main.ts"; lit "README.md"]);
                       (lit "src/lib", [lit "index.ts"]);
                       (lit "src/ui", [lit "index.ts"])];
               read_text := fun filepath =>
                 if startswith filepath (lit "src/lib")
                 then Return (lit "/// Two." ++ 10%N :: lit "export const two = 2;")
                 else Return (lit "export const one = 1;") |} in
  exists st top subs,
    scan fs (lit "src") = Return st /\
    for_each (visit_file fs (lit "src")) [lit "main.ts"; lit "README.md"] no_items
    = Return top /\
    Forall2 (fun d sub => scan fs d = Return sub)
            [lit "src/lib"; lit "src/ui"] subs /\
    total_items st = total_items top + fold_right Z.add 0 (map total_items subs) /\
    items_with_docstrings st
    = items_with_docstrings top
      + fold_right Z.add 0 (map items_with_docstrings subs) /\
    missing_docstrings st
    = missing_docstrings top ++ concat (map missing_docstrings subs).
Proof.
  intros fs. eexists.
  assert (Hscan : scan fs (lit "src")
                  = Return {| total_items := 3; items_with_docstrings := 1;
                              missing_docstrings :=
                                [lit "src/main.ts:1 - one";
                                 lit "src/ui/index.ts:1 - one"] |})
    by reflexivity.
  destruct (scan_of_tree fs (lit "src") (lit "src")
              [lit "main.ts"; lit "README.md"] [lit "src/lib"; lit "src/ui"]
              _ eq_refl Hscan) as (top & subs & H).
  exists top, subs. split; [exact Hscan | exact H].
Defined.


Lemma split_nl_round_trip_witness :
  let ls := [lit "export const a = 1;"; []; lit "// end"] in
  split_nl (join_nl ls) = ls.
Proof.
  intros ls.
  apply (proj2 (proj2 (proj2 (split_nl_round_trip [])))); [discriminate|].
  repeat constructor; intros H; vm_compute in H;
    repeat (destruct H as [H | H]; [discriminate|]); contradiction.
Defined.

(** * Properties of [inject_skills.py] *)

Module InjectSkillsFacts.
Import InjectSkills.

Lemma str_leb_refl (a : str) : str_leb a a = true.
Proof.
  induction a as [|x a IH]; simpl; [reflexivity|].
  now rewrite N.ltb_irrefl.
Qed.

Lemma str_leb_total (a b : str) : str_leb a b = false -> str_leb b a = true.
Proof.
  revert b. induction a as [|x a IH]; intros [|y b]; simpl; try discriminate;
    [reflexivity|].
  destruct (N.ltb_spec x y); [discriminate|].
  destruct (N.ltb_spec y x); [reflexivity|]. apply IH.
Qed.

Lemma str_leb_antisym (a b : str) :
  str_leb a b = true -> str_leb b a = true -> a = b.
Proof.
  revert b. induction a as [|x a IH]; intros [|y b]; simpl; try discriminate;
    [reflexivity|].
  destruct (N.ltb_spec x y) as [Hxy | Hxy];
    destruct (N.ltb_spec y x) as [Hyx | Hyx]; try discriminate; try lia.
  intros Hab Hba. assert (x = y) by lia. subst. f_equal. now apply IH.
Qed.

Lemma str_leb_trans (a b c : str) :
  str_leb a b = true -> str_leb b c = true -> str_leb a c = true.
Proof.
  revert b c. induction a as [|x a IH]; intros [|y b] [|z c]; simpl;
    try discriminate; try reflexivity.
  destruct (N.ltb_spec x y) as [Hxy | Hxy].
  - intros _. destruct (N.ltb_spec y z) as [Hyz | Hyz].
    + intros _. destruct (N.ltb_spec x z); [reflexivity | lia].
    + destruct (N.ltb_spec z y); [discriminate|]. intros _.
      destruct (N.ltb_spec x z); [reflexivity | lia].
  - destruct (N.ltb_spec y x); [discriminate|]. intros Hab.
    assert (x = y) by lia. subst y.
    destruct (N.ltb_spec x z); [reflexivity|].
    destruct (N.ltb_spec z x); [discriminate|]. now apply IH.
Qed.

Lemma insert_sorted_perm (x : str) (l : list str) :
  Permutation (x :: l) (insert_sorted x l).
Proof.
  induction l as [|y l IH]; simpl; [reflexivity|].
  destruct (str_leb x y); [reflexivity|].
  rewrite perm_swap. now constructor.
Qed.

Lemma sorted_perm (l : list str) : Permutation l (sorted l).
Proof.
  induction l as [|x l IH]; simpl; [constructor|].
  rewrite <- insert_sorted_perm. now constructor.
Qed.

Lemma insert_sorted_ascending (x : str) (l : list str) :
  StronglySorted str_le l -> StronglySorted str_le (insert_sorted x l).
Proof.
  induction 1 as [|y l Hl IH Hy]; simpl; [repeat constructor|].
  destruct (str_leb x y) eqn:Hxy.
  - constructor; [now constructor|].
    constructor; [exact Hxy|].
    eapply Forall_impl; [|exact Hy]. intros z Hz.
    now apply (str_leb_trans x y z).
  - constructor; [exact IH|].
    apply (Permutation_Forall (insert_sorted_perm x l)).
    constructor; [now apply str_leb_total | exact Hy].
Qed.

Lemma sorted_ascending (l : list str) : StronglySorted str_le (sorted l).
Proof.
  induction l as [|x l IH]; simpl; [constructor|].
  now apply insert_sorted_ascending.
Qed.

Lemma filter_ascending (f : str -> bool) (l : list str) :
  StronglySorted str_le l -> StronglySorted str_le (filter f l).
Proof.
  induction 1 as [|y l Hl IH Hy]; simpl; [constructor|].
  destruct (f y); [|exact IH].
  constructor; [exact IH|].
  rewrite Forall_forall in *. intros z Hz. apply Hy.
  now apply filter_In in Hz.
Qed.

Lemma filter_perm (f : str -> bool) (l l' : list str) :
  Permutation l l' -> Permutation (filter f l) (filter f l').
Proof.
  induction 1 as [|x l l' _ IH|x y l|l l' l'' _ IH1 _ IH2]; simpl.
  - constructor.
  - destruct (f x); [now constructor | exact IH].
  - destruct (f x), (f y); try reflexivity. apply perm_swap.
  - now transitivity (filter f l').
Qed.

(** There is one ascending arrangement of a list of strings. *)
Lemma ascending_unique (l l' : list str) :
  StronglySorted str_le l -> StronglySorted str_le l' ->
  Permutation l l' -> l = l'.
Proof.
  intros Hl. revert l'. induction Hl as [|x l Hl IH Hx]; intros l' Hl' Hp.
  - apply Permutation_nil in Hp. now subst.
  - destruct Hl' as [|y l' Hl' Hy].
    + apply Permutation_sym, Permutation_nil in Hp. discriminate.
    + assert (Hxy : str_leb x y = true).
      { assert (Hin : In y (x :: l))
          by (apply (Permutation_in _ (Permutation_sym Hp)); now left).
        destruct Hin as [<- | Hin]; [apply str_leb_refl|].
        rewrite Forall_forall in Hx. now apply Hx. }
      assert (Hyx : str_leb y x = true).
      { assert (Hin : In x (y :: l'))
          by (apply (Permutation_in _ Hp); now left).
        destruct Hin as [<- | Hin]; [apply str_leb_refl|].
        rewrite Forall_forall in Hy. now apply Hy. }
      assert (x = y) by now apply str_leb_antisym. subst y.
      f_equal. apply IH; [exact Hl'|].
      now apply Permutation_cons_inv with (a := x).
Qed.

Lemma sorted_of_permutation (l l' : list str) :
  Permutation l l' -> sorted l = sorted l'.
Proof.
  intros Hp. apply ascending_unique; try apply sorted_ascending.
  rewrite <- (sorted_perm l), <- (sorted_perm l'). exact Hp.
Qed.

(** X13: what the ending of a run of the bootstrap printer tells.
    An exit has status 1 and no other, and comes only from the
    protocol file or, after it was read, the skills directory not being
    found; the run returns only when the file was read and the
    directory listed; and an error of the two calls that leaves [main]
    as an exception is never the not-found error. *)
Theorem bootstrap_ending (fs : filesystem) :
  let protocol := read_file fs (lit "docs/SKILL_PROTOCOL.md") in
  let entries := listdir fs (lit "skills") in
  (forall code, ended (main fs) = Exited code ->
     code = 1 /\
     (protocol = Failed FileNotFoundError \/
      (exists text, protocol = Done text) /\
      entries = Failed FileNotFoundError)) /\
  (ended (main fs) = Returned ->
   exists text names, protocol = Done text /\ entries = Done names) /\
  (forall e, ended (main fs) = Uncaught e ->
     e <> FileNotFoundError /\
     (protocol = Failed e \/
      (exists text, protocol = Done text) /\ entries = Failed e)).
Proof.
  intros protocol entries. subst protocol entries. unfold main.
  destruct (read_file fs (lit "docs/SKILL_PROTOCOL.md")) as [text|e1];
    [destruct (listdir fs (lit "skills")) as [names|e2]; [|destruct e2]
    |destruct e1];
    cbn [ended]; settle_ending.
Qed.

Lemma bootstrap_ending_witness :
  let fs := sample (Done (lit "Follow the protocol."))
                   (Failed FileNotFoundError) [] in
  1 = 1 /\
  (read_file fs (lit "docs/SKILL_PROTOCOL.md") = Failed FileNotFoundError \/
   (exists text, read_file fs (lit "docs/SKILL_PROTOCOL.md") = Done text) /\
   listdir fs (lit "skills") = Failed FileNotFoundError).
Proof.
  intros fs. apply (proj1 (bootstrap_ending fs) 1). reflexivity.
Defined.

(** X14: in a run that returns, what stands between the heading of the
    skills and the closing lines is one line for each entry of the
    skills directory that is itself a directory, and for no other
    entry, each behind two spaces, a hyphen and a space, in ascending
    order of the names. *)
Theorem skills_listing (fs : filesystem) (text : str) (names : list str) :
  read_file fs (lit "docs/SKILL_PROTOCOL.md") = Done text ->
  listdir fs (lit "skills") = Done names ->
  exists shown,
    printed (main fs)
    = opening ++ [text] ++ skills_heading
      ++ map (fun skill => lit "  - " ++ skill) shown ++ closing /\
    Permutation shown
      (filter (fun skill => isdir fs (path_join (lit "skills") skill)) names) /\
    StronglySorted str_le shown.
Proof.
  intros Hp He. unfold main. rewrite Hp, He. cbn [printed].
  exists (filter (fun skill => isdir fs (path_join (lit "skills") skill))
                 (sorted names)).
  split; [now rewrite <- !app_assoc|]. split.
  - apply filter_perm. symmetry. apply sorted_perm.
  - apply filter_ascending. apply sorted_ascending.
Qed.

Lemma skills_listing_witness :
  let fs := sample (Done (lit "Follow the protocol."))
                   (Done [lit "review"; lit "README.md"; lit "build"; lit "Deploy"])
                   [lit "review"; lit "build"; lit "Deploy"] in
  exists shown,
    printed (main fs)
    = opening ++ [lit "Follow the protocol."] ++ skills_heading
      ++ map (fun skill => lit "  - " ++ skill) shown ++ closing /\
    Permutation shown [lit "review"; lit "build"; lit "Deploy"] /\
    StronglySorted str_le shown.
Proof.
  intros fs.
  exact (skills_listing fs (lit "Follow the protocol.")
           [lit "review"; lit "README.md"; lit "build"; lit "Deploy"]
           eq_refl eq_refl).
Defined.

(** X15: the run does not depend on the order in which the directory
    listing comes: two trees that differ only in that order give the
    same printed lines and the same ending. *)
Theorem listing_order_is_irrelevant (fs fs' : filesystem) (names names' : list str) :
  read_file fs' (lit "docs/SKILL_PROTOCOL.md")
  = read_file fs (lit "docs/SKILL_PROTOCOL.md") ->
  (forall path, isdir fs' path = isdir fs path) ->
  listdir fs (lit "skills") = Done names ->
  listdir fs' (lit "skills") = Done names' ->
  Permutation names names' ->
  main fs' = main fs.
Proof.
  intros Hread Hdir Hl Hl' Hperm. unfold main.
  rewrite Hread, Hl, Hl'.
  destruct (read_file fs (lit "docs/SKILL_PROTOCOL.md")) as [text|e];
    [|reflexivity].
  rewrite (sorted_of_permutation names' names (Permutation_sym Hperm)).
  unfold skill_lines.
  rewrite (filter_ext _ _ (fun skill => Hdir (path_join (lit "skills") skill))).
  reflexivity.
Qed.

Lemma listing_order_is_irrelevant_witness :
  main (sample (Done (lit "Follow the protocol."))
               (Done [lit "build"; lit "review"; lit "audit"])
               [lit "review"; lit "build"])
  = main (sample (Done (lit "Follow the protocol."))
                 (Done [lit "review"; lit "audit"; lit "build"])
                 [lit "review"; lit "build"]).
Proof.
  apply (listing_order_is_irrelevant _ _
           [lit "review"; lit "audit"; lit "build"]
           [lit "build"; lit "review"; lit "audit"]).
  - reflexivity.
  - reflexivity.
  - reflexivity.
  - reflexivity.
  - exact (Permutation_sym
             (Permutation_cons_append [lit "review"; lit "audit"] (lit "build"))).
Defined.

End InjectSkillsFacts.
